(** * evmTools: the NFT holder snapshot and the multi-wallet portfolio tracker

    A shallow embedding of [erc721snapshot.ts] (class [NFTSnapshotTool]) and of
    the portfolio tracker (class [PortfolioTracker], TypeScript and JavaScript
    versions), followed by the properties of the specification that concern
    them.

    Conventions of the embedding.
    - A JavaScript [Number] is an IEEE-754 binary64 value, here a [spec_float]
      of the Standard Library with precision 53 and maximal exponent 1024.
      Holder counts, which only ever hold integers, are kept in [Z], with the
      point where [c + 1] stops being exact (2^53) written out.
    - A JavaScript string is a [string]; the strings the tools build from
      numbers ([toString], [toFixed], viem's [formatUnits]) and read back
      ([parseFloat]) are really built and read.
    - A JavaScript object used as a dictionary is an association list in
      insertion order with unique keys, which is the order [Object.entries]
      follows for keys that are not array indices. Keys are addresses and
      token symbols; none of them is a property of [Object.prototype].
    - The ledger node and the price oracle are functions giving the reply of
      each call; a call that throws is [None] (or a [FetchThrows]). Calls are
      recorded in a log so that what was queried, and in which order, can be
      stated. *)

From Stdlib Require Import ZArith List String Ascii Bool Lia PeanoNat.
From Stdlib Require Import Floats.SpecFloat.
From Stdlib Require Import DecimalString DecimalZ DecimalPos.
From Stdlib Require Import Sorting.Permutation Sorting.Sorted.
Import ListNotations.

Local Open Scope string_scope.
Local Open Scope Z_scope.

(* ================================================================== *)
(** * The JavaScript values the tools compute with *)
(* ================================================================== *)

Module JS.

(** ** Strings *)

Definition ascii_lower (c : ascii) : ascii :=
  let n := nat_of_ascii c in
  if ((65 <=? n) && (n <=? 90))%nat then ascii_of_nat (n + 32) else c.

(** [String.prototype.toLowerCase], on the ASCII letters (addresses and the
    symbols of the token registry are ASCII). *)
Fixpoint toLowerCase (s : string) : string :=
  match s with
  | EmptyString => EmptyString
  | String c r => String (ascii_lower c) (toLowerCase r)
  end.

(** Truthiness of a string: every string but the empty one. *)
Definition str_truthy (s : string) : bool :=
  match s with EmptyString => false | String _ _ => true end.

Fixpoint zeros (n : nat) : string :=
  match n with O => EmptyString | S k => String "0" (zeros k) end.

(** [BigInt.prototype.toString] and the decimal digits of an integer. *)
Definition Z_to_string (z : Z) : string := NilZero.string_of_int (Z.to_int z).

(** [s.slice(a, a + n)] for [0 <= a]. *)
Definition slice (a n : Z) (s : string) : string :=
  substring (Z.to_nat a) (Z.to_nat n) s.

Definition strlen (s : string) : Z := Z.of_nat (String.length s).

(** ** Numbers *)

Definition Number := spec_float.
Definition prec : Z := 53.
Definition emax : Z := 1024.

Definition NaN : Number := S754_nan.
Definition num_zero : Number := S754_zero false.

Definition num_add : Number -> Number -> Number := SFadd prec emax.
Definition num_sub : Number -> Number -> Number := SFsub prec emax.
Definition num_mul : Number -> Number -> Number := SFmul prec emax.
Definition num_div : Number -> Number -> Number := SFdiv prec emax.

(** [a > b]; false as soon as one side is NaN. *)
Definition num_gt (a b : Number) : bool := SFltb b a.

(** Truthiness of a number: every number but [+0], [-0] and [NaN]. *)
Definition num_truthy (x : Number) : bool :=
  match x with
  | S754_zero _ | S754_nan => false
  | _ => true
  end.

(** [x || y] on numbers. *)
Definition num_or (x y : Number) : Number := if num_truthy x then x else y.

(** The Number nearest to the non-negative rational [n / d] (ties to even). *)
Definition round_ratio (n : Z) (d : positive) : Number :=
  match n with
  | Zpos p => SFdiv prec emax (S754_finite false p 0) (S754_finite false d 0)
  | _ => S754_zero false
  end.

(** The Number nearest to [m * 10^e], for [0 <= m]. *)
Definition round_dec (m e : Z) : Number :=
  if 0 <=? e then round_ratio (m * 10 ^ e) 1
  else round_ratio m (Z.to_pos (10 ^ (- e))).

(** The numeric literals of the source. *)
Definition lit_0_001 : Number := Eval vm_compute in round_dec 1 (-3).
Definition lit_100 : Number := Eval vm_compute in round_dec 100 0.

(** *** [parseFloat] *)

Definition is_digit (c : ascii) : bool :=
  let n := nat_of_ascii c in ((48 <=? n) && (n <=? 57))%nat.

Definition digit_val (c : ascii) : Z := Z.of_nat (nat_of_ascii c) - 48.

(** White space and line terminators (the ASCII ones). *)
Definition is_ws (c : ascii) : bool :=
  let n := nat_of_ascii c in
  (((9 <=? n) && (n <=? 13)) || (n =? 32))%nat.

Fixpoint trimStart (s : string) : string :=
  match s with
  | String c r => if is_ws c then trimStart r else s
  | EmptyString => s
  end.

(** Reads a run of digits: the number read so far, how many digits were
    read, and what follows them. *)
Fixpoint read_digits (acc cnt : Z) (s : string) : Z * Z * string :=
  match s with
  | String c r =>
      if is_digit c then read_digits (10 * acc + digit_val c) (cnt + 1) r
      else (acc, cnt, s)
  | EmptyString => (acc, cnt, s)
  end.

(** The value of the exponent part at the head of [s]; 0 when there is none
    (an [e] that no digit follows is not part of the number). *)
Definition parse_exponent (s : string) : Z :=
  match s with
  | String c r =>
      if (Ascii.eqb c "e" || Ascii.eqb c "E")%bool then
        let '(sg, r') :=
          match r with
          | String "+" t => (1, t)
          | String "-" t => (-1, t)
          | _ => (1, r)
          end in
        let '(v, n, _) := read_digits 0 0 r' in
        if n =? 0 then 0 else sg * v
      else 0
  | EmptyString => 0
  end.

(** The longest prefix that is an unsigned decimal literal, as a Number. *)
Definition parse_unsigned (s : string) : Number :=
  if String.prefix "Infinity" s then S754_infinity false
  else
    let '(ip, ni, r1) := read_digits 0 0 s in
    let '(m, nf, r2) :=
      match r1 with
      | String "." t => read_digits ip 0 t
      | _ => (ip, 0, r1)
      end in
    if ((ni =? 0) && (nf =? 0))%bool then NaN
    else round_dec m (parse_exponent r2 - nf).

Definition parseFloat (s : string) : Number :=
  let t := trimStart s in
  match t with
  | String "-" r => SFopp (parse_unsigned r)
  | String "+" r => parse_unsigned r
  | _ => parse_unsigned t
  end.

(** *** [Number.prototype.toString] *)

(** The value of a finite non-zero Number as a fraction. *)
Definition fraction_of (m : positive) (e : Z) : Z * Z :=
  if 0 <=? e then (Zpos m * 2 ^ e, 1) else (Zpos m, 2 ^ (- e)).

(** [num / den < 10^n]. *)
Definition lt_pow10 (num den n : Z) : bool :=
  if 0 <=? n then num <? den * 10 ^ n else num * 10 ^ (- n) <? den.

Fixpoint find_mag (fuel : nat) (num den n : Z) : Z :=
  match fuel with
  | O => n
  | S f => if lt_pow10 num den n then n else find_mag f num den (n + 1)
  end.

(** The [n] with [10^(n-1) <= num/den < 10^n]: searched upwards from a lower
    estimate taken from the binary logarithms. *)
Definition magnitude (num den : Z) : Z :=
  let l := Z.log2 num - Z.log2 den in
  find_mag 12 num den ((l - 1) * 30103 / 100000 - 2).

(** [num/den / 10^p] as a fraction. *)
Definition scale (num den p : Z) : Z * Z :=
  if 0 <=? p then (num, den * 10 ^ p) else (num * 10 ^ (- p), den).

(** The [k]-digit decimals [s * 10^(n-k)] next to [num/den]: the one that
    reads back as [x], the nearer one when both do, the even one on a tie. *)
Definition try_digits (x : Number) (num den n k : Z) : option (Z * Z) :=
  let '(a, b) := scale num den (n - k) in
  let lo := a / b in
  let r := a mod b in
  let hi := lo + 1 in
  let ok_lo := SFeqb (round_dec lo (n - k)) x in
  let ok_hi := SFeqb (round_dec hi (n - k)) x in
  let up := if hi =? 10 ^ k then (10 ^ (k - 1), n + 1) else (hi, n) in
  match ok_lo, ok_hi with
  | true, true =>
      match 2 * r ?= b with
      | Lt => Some (lo, n)
      | Gt => Some up
      | Eq => if Z.even lo then Some (lo, n) else Some up
      end
  | true, false => Some (lo, n)
  | false, true => Some up
  | false, false => None
  end.

Fixpoint shortest (fuel : nat) (x : Number) (num den n k : Z)
  : option (Z * Z * Z) :=
  match fuel with
  | O => None
  | S f =>
      match try_digits x num den n k with
      | Some (s, n') => Some (s, n', k)
      | None => shortest f x num den n (k + 1)
      end
  end.

(** The digits [ds] (there are [k] of them) with the decimal point after the
    [n]-th, the way [Number::toString] lays them out. *)
Definition layout (ds : string) (k n : Z) : string :=
  if ((k <=? n) && (n <=? 21))%bool then ds ++ zeros (Z.to_nat (n - k))
  else if ((0 <? n) && (n <=? 21))%bool then
    slice 0 n ds ++ "." ++ slice n (k - n) ds
  else if ((-6 <? n) && (n <=? 0))%bool then
    "0." ++ zeros (Z.to_nat (- n)) ++ ds
  else
    let e := n - 1 in
    let es := (if e <? 0 then "-" else "+") ++ Z_to_string (Z.abs e) in
    if k =? 1 then ds ++ "e" ++ es
    else slice 0 1 ds ++ "." ++ slice 1 (k - 1) ds ++ "e" ++ es.

Definition Number_toString (x : Number) : string :=
  match x with
  | S754_nan => "NaN"
  | S754_zero _ => "0"
  | S754_infinity s => if s then "-Infinity" else "Infinity"
  | S754_finite s m e =>
      let '(num, den) := fraction_of m e in
      let body :=
        match shortest 17 (S754_finite false m e) num den (magnitude num den) 1 with
        | Some (d, n, k) => layout (Z_to_string d) k n
        | None => "NaN"
        end in
      (if s then "-" else "") ++ body
  end.

(** *** [Number.prototype.toFixed] *)

Definition toFixed (x : Number) (f : Z) : string :=
  match x with
  | S754_finite s m e =>
      let '(num, den) := fraction_of m e in
      let sg := if s then "-" else "" in
      if 10 ^ 21 * den <=? num then sg ++ Number_toString (S754_finite false m e)
      else
        let n := (2 * num * 10 ^ f + den) / (2 * den) in
        let m0 := Z_to_string n in
        if f =? 0 then sg ++ m0
        else
          let m1 := if strlen m0 <=? f
                    then zeros (Z.to_nat (f + 1 - strlen m0)) ++ m0 else m0 in
          let k := strlen m1 in
          sg ++ slice 0 (k - f) m1 ++ "." ++ slice (k - f) f m1
  | S754_zero _ => if f =? 0 then "0" else "0." ++ zeros (Z.to_nat f)
  | _ => Number_toString x
  end.

End JS.

(* ================================================================== *)
(** * Objects used as dictionaries *)
(* ================================================================== *)

Module Obj.
Section Dict.
Context {V : Type}.

Definition t := list (string * V).

Definition empty : t := [].

(** [o[k]]; [None] is [undefined]. *)
Fixpoint get (k : string) (o : t) : option V :=
  match o with
  | [] => None
  | (k', v) :: r => if String.eqb k k' then Some v else get k r
  end.

(** [o[k] = v]: an existing key keeps its place, a new one goes last. That
    is the order in which JavaScript lists the keys that are not array
    indices; a key that is one (the decimal numeral of an integer below
    2^32 - 1, such as 7) is listed before all others, by ascending value,
    wherever it was inserted. Lookups do not depend on the order; what is
    stated about the order of keys is stated for keys that are not array
    indices. *)
Fixpoint set (k : string) (v : V) (o : t) : t :=
  match o with
  | [] => [(k, v)]
  | (k', v') :: r =>
      if String.eqb k k' then (k', v) :: r else (k', v') :: set k v r
  end.

Definition entries (o : t) : list (string * V) := o.
Definition keys (o : t) : list string := map fst o.
Definition values (o : t) : list V := map snd o.

(** What every object satisfies: no key occurs twice. *)
Definition wf (o : t) : Prop := NoDup (keys o).
End Dict.
Arguments t : clear implicits.
End Obj.

(* ================================================================== *)
(** * viem: [formatUnits] and [formatEther] *)
(* ================================================================== *)

Module Viem.
Import JS.

(** [fraction.replace(/(0+)$/, '')]. *)
Fixpoint strip_trailing_zeros (s : string) : string :=
  match s with
  | EmptyString => EmptyString
  | String c r =>
      match strip_trailing_zeros r with
      | EmptyString => if Ascii.eqb c "0" then EmptyString else String c EmptyString
      | r' => String c r'
      end
  end.

(** [s.padStart(n, '0')]. *)
Definition padStart0 (n : nat) (s : string) : string :=
  zeros (n - String.length s) ++ s.

Definition formatUnits (value : Z) (decimals : nat) : string :=
  let negative := value <? 0 in
  let display := padStart0 decimals (Z_to_string (Z.abs value)) in
  let len := String.length display in
  let integer := substring 0 (len - decimals) display in
  let fraction :=
    strip_trailing_zeros (substring (len - decimals) decimals display) in
  (if negative then "-" else "")
  ++ (if str_truthy integer then integer else "0")
  ++ (if str_truthy fraction then "." ++ fraction else "").

Definition formatEther (wei : Z) : string := formatUnits wei 18.

End Viem.

(* ================================================================== *)
(** * erc721snapshot.ts: [NFTSnapshotTool] *)
(* ================================================================== *)

Definition Address := string.

(** What a call gives: a value, or an error thrown to the caller. *)
Inductive outcome (A : Type) : Type :=
| Returns (a : A)
| Throws (message : string).
Arguments Returns {A} a.
Arguments Throws {A} message.

Module Snapshot.
Import JS.

(** [interface NFTSnapshot { [address]: number }]. *)
Definition NFTSnapshot := Obj.t Z.

(** The contract as the node answers for it: [readContract] with
    [totalSupply], and with [ownerOf] for each token id; [None] when the
    call reverts or cannot be made. *)
Record Contract := {
  totalSupply : option Z;
  ownerOf : Z -> option Address
}.

(** The calls made to the node. *)
Inductive call :=
| CallTotalSupply
| CallOwnerOf (tokenId : Z).

Definition rethrown : string := "readContract(totalSupply) failed".
Definition range_error : string :=
  "Must provide startId and endId if totalSupply is not available".

(** [getTotalSupply]: logs and throws again what [readContract] threw. *)
Definition getTotalSupply (c : Contract) : outcome Z :=
  match totalSupply c with
  | Some n => Returns n
  | None => Throws rethrown
  end.

(** [getTokenOwner]: [null] when [readContract] throws. *)
Definition getTokenOwner (c : Contract) (tokenId : Z) : option Address :=
  match ownerOf c tokenId with
  | Some owner => Some owner
  | None => None
  end.

(** [if (owner)]: neither [null] nor the empty string. *)
Definition owner_truthy (o : option Address) : bool :=
  match o with
  | Some a => str_truthy a
  | None => false
  end.

(** [c + 1] on a Number holding the integer [c]: exact up to 2^53, where the
    sum rounds back to 2^53. *)
Definition count_succ (c : Z) : Z := if c <? 2 ^ 53 then c + 1 else c.

(** [(holders[owner] || 0) + 1]. *)
Definition bump (holders : NFTSnapshot) (owner : Address) : Z :=
  count_succ
    match Obj.get owner holders with
    | Some c => if c =? 0 then 0 else c
    | None => 0
    end.

(** One turn of the loop body at index [i]. *)
Definition visit (c : Contract) (holders : NFTSnapshot) (i : Z) : NFTSnapshot :=
  match getTokenOwner c i with
  | Some owner =>
      if str_truthy owner then Obj.set owner (bump holders owner) holders
      else holders
  | None => holders
  end.

(** [for (let i = start; i < end; i++)], with [n] the turns left; returns the
    holders and the calls made, in order. *)
Fixpoint scan (c : Contract) (n : nat) (i : Z) (holders : NFTSnapshot)
  : NFTSnapshot * list call :=
  match n with
  | O => (holders, [])
  | S n' =>
      let '(h, log) := scan c n' (i + 1) (visit c holders i) in
      (h, CallOwnerOf i :: log)
  end.

(** The bounds [startId?: number] and [endId?: number] are taken to be
    integers: [BigInt] of any other Number throws a RangeError (and NaN is
    falsy), which is left out of the model.

    Truthiness of an optional numeric argument: given, and not 0. *)
Definition given (x : option Z) : bool :=
  match x with
  | Some z => negb (z =? 0)
  | None => false
  end.

(** [x ? BigInt(x) : d], for an integer [x]. *)
Definition or_default (x : option Z) (d : Z) : Z :=
  match x with
  | Some z => if z =? 0 then d else z
  | None => d
  end.

(** The bounds of the scan, once the total supply is settled. *)
Definition scan_start (startId : option Z) : Z := or_default startId 0.
Definition scan_end (endId : option Z) (supply : Z) : Z := or_default endId supply.

Definition scan_range (c : Contract) (startId endId : option Z) (supply : Z)
  : NFTSnapshot * list call :=
  let start := scan_start startId in
  let stop := scan_end endId supply in
  scan c (Z.to_nat (stop - start)) start Obj.empty.

(** [createSnapshot(startId?, endId?)]: the snapshot or the error thrown,
    with every call made to the node. *)
Definition createSnapshot (c : Contract) (startId endId : option Z)
  : outcome NFTSnapshot * list call :=
  match getTotalSupply c with
  | Returns supply =>
      let '(h, log) := scan_range c startId endId supply in
      (Returns h, CallTotalSupply :: log)
  | Throws _ =>
      if (negb (given startId) || negb (given endId))%bool then
        (Throws range_error, [CallTotalSupply])
      else
        (* totalSupply = BigInt(endId), endId being given here *)
        let '(h, log) := scan_range c startId endId (or_default endId 0) in
        (Returns h, CallTotalSupply :: log)
  end.

(** [getAirdropEligible(snapshot, minTokens = 1)]. *)
Definition getAirdropEligible (snapshot : NFTSnapshot) (minTokens : option Z)
  : list Address :=
  let min := match minTokens with Some m => m | None => 1 end in
  map fst (filter (fun e => min <=? snd e) (Obj.entries snapshot)).

(** [Object.entries(snapshot).sort(([, a], [, b]) => b - a)]: a stable sort;
    [b] goes before [a] when [b - a] is positive. The counts are integers a
    Number holds exactly (at most 2^53 in absolute value), for which the
    Number [b - a] has the sign of the difference. *)
Fixpoint insert_holder (x : Address * Z) (l : list (Address * Z))
  : list (Address * Z) :=
  match l with
  | [] => [x]
  | y :: r => if 0 <? snd y - snd x then y :: insert_holder x r else x :: l
  end.

Definition sort_holders (l : list (Address * Z)) : list (Address * Z) :=
  fold_right insert_holder [] l.

(** The line feed. *)
Definition nl : string := String (ascii_of_nat 10) EmptyString.

(** [rows.join(sep)]. *)
Fixpoint join (sep : string) (rows : list string) : string :=
  match rows with
  | [] => EmptyString
  | [r] => r
  | r :: rest => r ++ sep ++ join sep rest
  end.

(** The file system as [fs.writeFile] meets it: whether writing the named
    file succeeds. *)
Definition FileSystem := string -> bool.

(** [exportToCSV(snapshot, filename?)]: the string returned and the files
    written, with their content. A write that throws is caught and only
    changes what is printed. [`${count}`] is the decimal digits of a count
    that a Number holds exactly. *)
Definition exportToCSV (fs : FileSystem) (snapshot : NFTSnapshot)
  (filename : option string) : string * list (string * string) :=
  let headers := "Address,Token Count" ++ nl in
  let rows :=
    join nl (map (fun e => fst e ++ "," ++ Z_to_string (snd e))
               (sort_holders (Obj.entries snapshot))) in
  let csvString := headers ++ rows in
  (csvString,
   match filename with
   | Some f => if (str_truthy f && fs f)%bool then [(f, csvString)] else []
   | None => []
   end).

End Snapshot.

(* ================================================================== *)
(** * erc721Snapshot.js: the [getSnapshot] script *)
(* ================================================================== *)

Module Script.
Import JS Snapshot.

(** How a run of the script ends: it logs the holders, the promise is
    rejected, or the loop never ends. *)
Inductive run :=
| Completed (holders : NFTSnapshot) (log : list call)
| Rejected (log : list call)
| Forever.

(** The turns of [for (let i = 0; i < Number(totalSupply); i++)]. The
    counter is a Number: it is exact up to 2^53 and [i++] leaves 2^53 where
    it is, so the loop ends only if [Number(totalSupply)] is at most 2^53,
    which is so up to a supply of [2^53 + 1] (that rounds to 2^53). *)
Definition turns (supply : Z) : option Z :=
  if supply <=? 2 ^ 53 + 1 then Some (Z.min supply (2 ^ 53)) else None.

(** The body of the loop: no test of the owner. *)
Definition visit (c : Contract) (holders : NFTSnapshot) (i : Z) : NFTSnapshot :=
  match ownerOf c i with
  | Some owner => Obj.set owner (bump holders owner) holders
  | None => holders
  end.

Fixpoint loop (c : Contract) (n : nat) (i : Z) (holders : NFTSnapshot)
  : NFTSnapshot * list call :=
  match n with
  | O => (holders, [])
  | S n' =>
      let '(h, log) := loop c n' (i + 1) (visit c holders i) in
      (h, CallOwnerOf i :: log)
  end.

(** [getSnapshot()]: a failing total-supply query is not caught. *)
Definition getSnapshot (c : Contract) : run :=
  match totalSupply c with
  | None => Rejected [CallTotalSupply]
  | Some supply =>
      match turns supply with
      | Some n =>
          let '(h, log) := loop c (Z.to_nat n) 0 Obj.empty in
          Completed h (CallTotalSupply :: log)
      | None => Forever
      end
  end.

End Script.

(* ================================================================== *)
(** * The portfolio tracker: [PortfolioTracker] *)
(* ================================================================== *)

Module Portfolio.
Import JS Viem.

Record TokenConfig := {
  address : option Address;   (* [null] for the native asset *)
  decimals : nat;
  symbol : string
}.

Record TokenBalance := {
  balance : string;
  tb_symbol : string;
  tb_decimals : nat
}.

Record WalletConfig := {
  w_address : Address;
  label : string
}.

Definition WalletBalances := Obj.t TokenBalance.

Record WalletDetails := {
  wd_address : Address;
  wd_label : string;
  balances : WalletBalances
}.

Definition AggregatedBalances := Obj.t TokenBalance.

Record PortfolioData := {
  aggregatedBalances : AggregatedBalances;
  walletDetails : list WalletDetails
}.

Record AssetValue := {
  av_symbol : string;
  av_balance : string;
  price : string;
  value : string;
  percentage : string
}.

Record PortfolioValue := {
  totalValue : Number;
  valueBreakdown : list AssetValue
}.

Definition PriceCache := Obj.t Number.

Definition DEFAULT_TOKENS : Obj.t TokenConfig :=
  [ ("ETH",  {| address := None; decimals := 18; symbol := "ETH" |});
    ("USDC", {| address := Some "0xA0b86a33E6441c8EBb6E6c8c8c9c5C8C8c8c8c8c";
                decimals := 6; symbol := "USDC" |});
    ("USDT", {| address := Some "0xdAC17F958D2ee523a2206206994597C13D831ec7";
                decimals := 6; symbol := "USDT" |});
    ("WETH", {| address := Some "0xC02aaA39b223FE8D0A0e5C4F27eAD9083C756Cc2";
                decimals := 18; symbol := "WETH" |});
    ("UNI",  {| address := Some "0x1f9840a85d5aF5bf1D1762F925BDADdC4201F984";
                decimals := 18; symbol := "UNI" |});
    ("LINK", {| address := Some "0x514910771AF9Ca656af840dff83E8264EcF986CA";
                decimals := 18; symbol := "LINK" |});
    ("AAVE", {| address := Some "0x7Fc66500c84A76Ad7e9c93437bFc5Ac33E2DDaE9";
                decimals := 18; symbol := "AAVE" |});
    ("COMP", {| address := Some "0xc00e94Cb662C3520282E6f5717214004A7f26888";
                decimals := 18; symbol := "COMP" |}) ].

(** The fields of the class. *)
Record PortfolioTracker := {
  wallets : list WalletConfig;
  portfolioData : PortfolioData;
  priceCache : PriceCache;
  tokens : Obj.t TokenConfig
}.

(** [{ ...DEFAULT_TOKENS, ...(config.customTokens || {}) }]. *)
Definition merge_tokens (custom : option (Obj.t TokenConfig)) : Obj.t TokenConfig :=
  fold_left (fun o e => Obj.set (fst e) (snd e) o)
    (match custom with Some c => Obj.entries c | None => [] end)
    DEFAULT_TOKENS.

(** [constructor(config)]. *)
Definition new_tracker (customTokens : option (Obj.t TokenConfig)) : PortfolioTracker :=
  {| wallets := [];
     portfolioData := {| aggregatedBalances := Obj.empty; walletDetails := [] |};
     priceCache := Obj.empty;
     tokens := merge_tokens customTokens |}.

(** [addWallet(address, label = "")]. *)
Definition addWallet (t : PortfolioTracker) (a : Address) (l : string)
  : PortfolioTracker :=
  {| wallets := (wallets t ++ [ {| w_address := toLowerCase a; label := l |} ])%list;
     portfolioData := portfolioData t;
     priceCache := priceCache t;
     tokens := tokens t |}.

(** ** The price oracle *)

(** What [response.json()] gives: it throws, or the data, of which only
    [data[coingeckoId]?.usd] is read ([None] when it is [undefined]). *)
Inductive body :=
| BadJson
| Json (usd : option Number).

(** What [fetch] gives: it throws, or a response with its [ok] flag. *)
Inductive fetched :=
| FetchThrows
| Response (ok : bool) (b : body).

(** The oracle: its reply to the [n]-th request made to it, for an id. *)
Definition Oracle := nat -> string -> fetched.

Definition coingecko_mapping : Obj.t string :=
  [ ("ETH", "ethereum"); ("USDC", "usd-coin"); ("USDT", "tether");
    ("WETH", "weth"); ("UNI", "uniswap"); ("LINK", "chainlink");
    ("AAVE", "aave"); ("COMP", "compound-governance-token") ].

(** [mapping[symbol] || symbol.toLowerCase()]. *)
Definition getCoingeckoId (sym : string) : string :=
  match Obj.get sym coingecko_mapping with
  | Some id => if str_truthy id then id else toLowerCase sym
  | None => toLowerCase sym
  end.

(** [data[coingeckoId]?.usd || 0]. *)
Definition usd_or_0 (usd : option Number) : Number :=
  match usd with
  | Some p => num_or p num_zero
  | None => num_zero
  end.

(** [if (this.priceCache[tokenSymbol])]: the price when the test passes. *)
Definition cache_hit (cache : PriceCache) (sym : string) : option Number :=
  match Obj.get sym cache with
  | Some p => if num_truthy p then Some p else None
  | None => None
  end.

(** [getTokenPrice(tokenSymbol)], TypeScript version: the price, the cache
    and the log of the ids requested from the oracle. *)
Definition getTokenPrice (oracle : Oracle) (cache : PriceCache)
  (olog : list string) (sym : string) : Number * PriceCache * list string :=
  match cache_hit cache sym with
  | Some p => (p, cache, olog)
  | None =>
      let coingeckoId := getCoingeckoId sym in
      let olog' := (olog ++ [coingeckoId])%list in
      match oracle (List.length olog) coingeckoId with
      | FetchThrows => (num_zero, cache, olog')
      | Response ok b =>
          if negb ok then (num_zero, cache, olog')
          else
            match b with
            | BadJson => (num_zero, cache, olog')
            | Json usd =>
                let p := usd_or_0 usd in
                (p, Obj.set sym p cache, olog')
            end
      end
  end.

(** [getTokenPrice(tokenSymbol)], JavaScript version: [response.ok] is not
    looked at. *)
Definition getTokenPrice_js (oracle : Oracle) (cache : PriceCache)
  (olog : list string) (sym : string) : Number * PriceCache * list string :=
  match cache_hit cache sym with
  | Some p => (p, cache, olog)
  | None =>
      let coingeckoId := getCoingeckoId sym in
      let olog' := (olog ++ [coingeckoId])%list in
      match oracle (List.length olog) coingeckoId with
      | FetchThrows => (num_zero, cache, olog')
      | Response _ BadJson => (num_zero, cache, olog')
      | Response _ (Json usd) =>
          let p := usd_or_0 usd in
          (p, Obj.set sym p cache, olog')
      end
  end.

(** ** The ledger node *)

Inductive query :=
| GetBalance (a : Address)
| BalanceOf (token wallet : Address).

(** The node: its reply to the [n]-th call made to it; [None] when the call
    throws. *)
Definition Node := nat -> query -> option Z.

Definition getETHBalance (node : Node) (log : list query) (a : Address)
  : string * list query :=
  let q := GetBalance a in
  (match node (List.length log) q with
   | Some b => formatEther b
   | None => "0"
   end, (log ++ [q])%list).

Definition getTokenBalance (node : Node) (log : list query)
  (tokenAddress walletAddress : Address) : Z * list query :=
  let q := BalanceOf tokenAddress walletAddress in
  (match node (List.length log) q with
   | Some b => b
   | None => 0
   end, (log ++ [q])%list).

(** [if (token.address)]. *)
Definition has_address (token : TokenConfig) : bool :=
  match address token with
  | Some a => str_truthy a
  | None => false
  end.

(** The body of the loop over [Object.entries(this.tokens)]. *)
Definition token_step (node : Node) (walletAddress : Address)
  (st : WalletBalances * list query) (e : string * TokenConfig)
  : WalletBalances * list query :=
  let '(bals, log) := st in
  let '(sym, token) := e in
  match address token with
  | Some ta =>
      if str_truthy ta then
        let '(b, log') := getTokenBalance node log ta walletAddress in
        if 0 <? b then
          let formattedBalance := formatUnits b (decimals token) in
          if num_gt (parseFloat formattedBalance) lit_0_001 then
            (Obj.set sym {| balance := formattedBalance;
                            tb_symbol := symbol token;
                            tb_decimals := decimals token |} bals, log')
          else (bals, log')
        else (bals, log')
      else st
  | None => st
  end.

Definition getWalletBalances (node : Node) (toks : Obj.t TokenConfig)
  (log : list query) (walletAddress : Address) : WalletBalances * list query :=
  let '(ethBalance, log1) := getETHBalance node log walletAddress in
  let bals :=
    if num_gt (parseFloat ethBalance) num_zero then
      Obj.set "ETH" {| balance := ethBalance; tb_symbol := "ETH";
                       tb_decimals := 18 |} Obj.empty
    else Obj.empty in
  fold_left (token_step node walletAddress) (Obj.entries toks) (bals, log1).

(** The body of the loop over [Object.entries(balances)]. *)
Definition merge_balance (agg : AggregatedBalances) (e : string * TokenBalance)
  : AggregatedBalances :=
  let '(sym, data) := e in
  let agg1 :=
    match Obj.get sym agg with
    | Some _ => agg
    | None => Obj.set sym {| balance := "0"; tb_symbol := tb_symbol data;
                             tb_decimals := tb_decimals data |} agg
    end in
  match Obj.get sym agg1 with
  | Some cur =>
      Obj.set sym
        {| balance := Number_toString
                        (num_add (parseFloat (balance cur))
                                 (parseFloat (balance data)));
           tb_symbol := tb_symbol cur;
           tb_decimals := tb_decimals cur |} agg1
  | None => agg1   (* does not happen: the entry was just made *)
  end.

(** The body of the loop over [this.wallets]. *)
Definition wallet_step (node : Node) (toks : Obj.t TokenConfig)
  (st : AggregatedBalances * list WalletDetails * list query)
  (w : WalletConfig) : AggregatedBalances * list WalletDetails * list query :=
  let '(agg, details, log) := st in
  let '(bals, log') := getWalletBalances node toks log (w_address w) in
  (fold_left merge_balance (Obj.entries bals) agg,
   (details ++ [ {| wd_address := w_address w; wd_label := label w;
                    balances := bals |} ])%list,
   log').

Definition set_portfolioData (t : PortfolioTracker) (pd : PortfolioData)
  : PortfolioTracker :=
  {| wallets := wallets t; portfolioData := pd;
     priceCache := priceCache t; tokens := tokens t |}.

Definition set_priceCache (t : PortfolioTracker) (c : PriceCache)
  : PortfolioTracker :=
  {| wallets := wallets t; portfolioData := portfolioData t;
     priceCache := c; tokens := tokens t |}.

Definition aggregatePortfolio (node : Node) (t : PortfolioTracker)
  (log : list query) : PortfolioData * PortfolioTracker * list query :=
  let '(agg, details, log') :=
    fold_left (wallet_step node (tokens t)) (wallets t) (Obj.empty, [], log) in
  let pd := {| aggregatedBalances := agg; walletDetails := details |} in
  (pd, set_portfolioData t pd, log').

(** The body of the loop over [Object.entries(aggregatedBalances)]. *)
Definition value_step (oracle : Oracle)
  (st : Number * list AssetValue * PriceCache * list string)
  (e : string * TokenBalance)
  : Number * list AssetValue * PriceCache * list string :=
  let '(total, rows, cache, olog) := st in
  let '(sym, data) := e in
  let '(p, cache', olog') := getTokenPrice oracle cache olog sym in
  let bal := parseFloat (balance data) in
  let v := num_mul bal p in
  (num_add total v,
   (rows ++ [ {| av_symbol := sym; av_balance := toFixed bal 6;
                 price := toFixed p 2; value := toFixed v 2;
                 percentage := "0" |} ])%list,
   cache', olog').

(** [item.percentage = ((parseFloat(item.value) / totalValue) * 100).toFixed(2)]. *)
Definition with_percentage (total : Number) (item : AssetValue) : AssetValue :=
  {| av_symbol := av_symbol item; av_balance := av_balance item;
     price := price item; value := value item;
     percentage :=
       toFixed (num_mul (num_div (parseFloat (value item)) total) lit_100) 2 |}.

(** [valueBreakdown.sort((a, b) => parseFloat(b.value) - parseFloat(a.value))]:
    a stable sort; [b] goes before [a] when the comparator is positive. *)
Definition comparator (a b : AssetValue) : Number :=
  num_sub (parseFloat (value b)) (parseFloat (value a)).

Fixpoint insert_row (x : AssetValue) (l : list AssetValue) : list AssetValue :=
  match l with
  | [] => [x]
  | y :: r =>
      if num_gt (comparator x y) num_zero then y :: insert_row x r
      else x :: l
  end.

Definition sort_rows (l : list AssetValue) : list AssetValue :=
  fold_right insert_row [] l.

(** [calculatePortfolioValue()]: aggregates first when nothing was
    aggregated yet, then prices every aggregated symbol. *)
Definition calculatePortfolioValue (node : Node) (oracle : Oracle)
  (t : PortfolioTracker) (log : list query) (olog : list string)
  : PortfolioValue * PortfolioTracker * list query * list string :=
  let '(t1, log1) :=
    match Obj.keys (aggregatedBalances (portfolioData t)) with
    | [] => let '(_, t', log') := aggregatePortfolio node t log in (t', log')
    | _ :: _ => (t, log)
    end in
  let '(total, rows, cache, olog1) :=
    fold_left (value_step oracle)
      (Obj.entries (aggregatedBalances (portfolioData t1)))
      (num_zero, [], priceCache t1, olog) in
  ({| totalValue := total;
      valueBreakdown := sort_rows (map (with_percentage total) rows) |},
   set_priceCache t1 cache, log1, olog1).

End Portfolio.

(* ================================================================== *)
(** * Vocabulary of the specification *)
(* ================================================================== *)

(** The indices [i, i+1, ..., i+n-1], in the order the scan visits them. *)
Fixpoint index_range (i : Z) (n : nat) : list Z :=
  match n with
  | O => []
  | S k => i :: index_range (i + 1) k
  end.

(** The indices of [ids] whose [ownerOf] query succeeded. *)
Definition resolved_count (c : Snapshot.Contract) (ids : list Z) : Z :=
  Z.of_nat (List.length
    (filter (fun i => match Snapshot.ownerOf c i with
                      | Some _ => true | None => false end) ids)).

(** The indices of [ids] that resolved to the address [a]. *)
Definition owned_by (c : Snapshot.Contract) (a : Address) (ids : list Z) : Z :=
  Z.of_nat (List.length
    (filter (fun i => match Snapshot.ownerOf c i with
                      | Some o => String.eqb o a | None => false end) ids)).

(** [Object.values(snapshot).reduce((sum, count) => sum + count, 0)]. *)
Definition tally_total (h : Snapshot.NFTSnapshot) : Z :=
  fold_right Z.add 0 (Obj.values h).

(** The count a snapshot gives an address, 0 when it has no entry. *)
Definition count_of (h : Snapshot.NFTSnapshot) (a : Address) : Z :=
  match Obj.get a h with Some n => n | None => 0 end.

(** The token ids a log shows were asked for, in order. *)
Definition queried_ids (log : list Snapshot.call) : list Z :=
  flat_map (fun q => match q with
                     | Snapshot.CallOwnerOf i => [i]
                     | Snapshot.CallTotalSupply => []
                     end) log.

(** What the scan keeps true of the tally it builds. *)
Definition tally_ok (h : Snapshot.NFTSnapshot) : Prop :=
  Obj.wf h /\ Forall (fun v => 0 < v) (Obj.values h).

(** Owners are addresses, [0x...]: never the empty string. *)
Definition owners_nonempty (c : Snapshot.Contract) : Prop :=
  forall i a, Snapshot.ownerOf c i = Some a -> a <> "".

(** Two addresses that differ at most in the case of their letters. *)
Definition same_entity (a b : Address) : Prop :=
  JS.toLowerCase a = JS.toLowerCase b.

(** ** Concrete contracts *)

(** Scenario A with [X = 0xX] and [Y = 0xY]: five tokens, 1 and 3 burned. *)
Definition scenario_contract : Snapshot.Contract :=
  {| Snapshot.totalSupply := Some 5;
     Snapshot.ownerOf := fun i =>
       if ((i =? 0) || (i =? 2))%bool then Some "0xX"
       else if i =? 4 then Some "0xY" else None |}.

(** The same tokens behind a node that cannot tell the total supply. *)
Definition no_supply_contract : Snapshot.Contract :=
  {| Snapshot.totalSupply := None;
     Snapshot.ownerOf := Snapshot.ownerOf scenario_contract |}.

(** Two tokens whose owner is reported once in upper and once in lower case. *)
Definition mixed_case_contract : Snapshot.Contract :=
  {| Snapshot.totalSupply := Some 2;
     Snapshot.ownerOf := fun i =>
       if i =? 0 then Some "0xAB" else if i =? 1 then Some "0xab" else None |}.

(** ** Price lookups *)

(** A lookup that fails, TypeScript version: [fetch] throws, the response is
    not a success, its body cannot be read, or it has no price for the id
    (an unknown symbol). *)
Definition failed_lookup (r : Portfolio.fetched) : bool :=
  match r with
  | Portfolio.Response true (Portfolio.Json (Some _)) => false
  | _ => true
  end.

(** A lookup that fails, JavaScript version, where an error response shows
    as a body that cannot be read or that has no price for the id. *)
Definition failed_lookup_js (r : Portfolio.fetched) : bool :=
  match r with
  | Portfolio.Response _ (Portfolio.Json (Some _)) => false
  | _ => true
  end.

(** An oracle that is unreachable at the first request and answers 2000.5
    from then on. *)
Definition flaky_oracle : Portfolio.Oracle :=
  fun n _ =>
    match n with
    | O => Portfolio.FetchThrows
    | S _ => Portfolio.Response true
               (Portfolio.Json (Some (JS.parseFloat "2000.5")))
    end.

(** An oracle that prices everything at 0 at the first request and at 5
    afterwards. *)
Definition zero_then_five : Portfolio.Oracle :=
  fun n _ =>
    match n with
    | O => Portfolio.Response true (Portfolio.Json (Some JS.num_zero))
    | S _ => Portfolio.Response true (Portfolio.Json (Some (JS.parseFloat "5")))
    end.

(** An oracle that cannot be reached at all. *)
Definition dead_oracle : Portfolio.Oracle := fun _ _ => Portfolio.FetchThrows.

(** ** Balances *)

(** The value a balance read yields: the reply, or 0 when the call fails. *)
Definition absorbed (r : option Z) : Z :=
  match r with Some b => b | None => 0 end.

(** The node that answers a balance of 0 where call number [j] of [node]
    fails, and is [node] otherwise. *)
Definition zero_at (j : nat) (node : Portfolio.Node) : Portfolio.Node :=
  fun n q => if Nat.eqb n j then Some (absorbed (node n q)) else node n q.

(** The tokens the loop asks the node about, in the order of the registry:
    those with a contract address. *)
Definition asked (toks : Obj.t Portfolio.TokenConfig)
  : list (string * Portfolio.TokenConfig) :=
  filter (fun e => Portfolio.has_address (snd e)) (Obj.entries toks).

Definition contract_of (token : Portfolio.TokenConfig) : Address :=
  match Portfolio.address token with Some a => a | None => "" end.

(** The calls one wallet gives rise to: its native balance, then each asked
    token. *)
Definition token_queries (l : list (string * Portfolio.TokenConfig))
  (w : Address) : list Portfolio.query :=
  map (fun e => Portfolio.BalanceOf (contract_of (snd e)) w) l.

Definition wallet_queries (toks : Obj.t Portfolio.TokenConfig) (w : Address)
  : list Portfolio.query :=
  Portfolio.GetBalance w :: token_queries (asked toks) w.

(** The calls a list of wallets gives rise to. *)
Definition queries_of (toks : Obj.t Portfolio.TokenConfig)
  (ws : list Portfolio.WalletConfig) : list Portfolio.query :=
  flat_map (fun wl => wallet_queries toks (Portfolio.w_address wl)) ws.

(** The entry a token balance of [b] base units is kept as. *)
Definition kept_as (token : Portfolio.TokenConfig) (b : Z)
  : Portfolio.TokenBalance :=
  {| Portfolio.balance := Viem.formatUnits b (Portfolio.decimals token);
     Portfolio.tb_symbol := Portfolio.symbol token;
     Portfolio.tb_decimals := Portfolio.decimals token |}.

(** The entry the native balance is kept as. *)
Definition native_entry (ethBalance : string) : Portfolio.TokenBalance :=
  {| Portfolio.balance := ethBalance; Portfolio.tb_symbol := "ETH";
     Portfolio.tb_decimals := 18 |}.

(** The test a token balance passes to be kept: positive, and its formatted
    value, read as a Number, above the Number 0.001. *)
Definition above_dust (token : Portfolio.TokenConfig) (b : Z) : bool :=
  ((0 <? b)
   && JS.num_gt (JS.parseFloat (Viem.formatUnits b (Portfolio.decimals token)))
        JS.lit_0_001)%bool.

(** The balances of a wallet before the loop over the registry. *)
Definition native_start (node : Portfolio.Node) (w : Address)
  (log : list Portfolio.query) : Portfolio.WalletBalances :=
  let eth := Viem.formatEther
               (absorbed (node (List.length log) (Portfolio.GetBalance w))) in
  if JS.num_gt (JS.parseFloat eth) JS.num_zero
  then Obj.set "ETH" (native_entry eth) Obj.empty else Obj.empty.

(** ** Aggregation *)

(** The entries of the symbol [s] in the per-wallet results, in wallet order. *)
Definition retained (s : string) (details : list Portfolio.WalletDetails)
  : list Portfolio.TokenBalance :=
  flat_map (fun wd => match Obj.get s (Portfolio.balances wd) with
                      | Some tb => [tb]
                      | None => []
                      end) details.

(** [(parseFloat(acc) + parseFloat(b)).toString()]. *)
Definition float_plus (acc b : string) : string :=
  JS.Number_toString (JS.num_add (JS.parseFloat acc) (JS.parseFloat b)).

(** The balances added one after the other, as Numbers, from ["0"]. *)
Definition float_sum (bs : list string) : string := fold_left float_plus bs "0".

(** The aggregate of one symbol as the per-wallet results determine it. *)
Definition aggregate_of (s : string) (details : list Portfolio.WalletDetails)
  : option Portfolio.TokenBalance :=
  match retained s details with
  | [] => None
  | (tb :: _) as bs =>
      Some {| Portfolio.balance := float_sum (map Portfolio.balance bs);
              Portfolio.tb_symbol := Portfolio.tb_symbol tb;
              Portfolio.tb_decimals := Portfolio.tb_decimals tb |}
  end.

(** One more retained balance added into the entry of its symbol. *)
Definition add_retained (cur : option Portfolio.TokenBalance)
  (tb : Portfolio.TokenBalance) : option Portfolio.TokenBalance :=
  Some match cur with
       | Some c =>
           {| Portfolio.balance :=
                float_plus (Portfolio.balance c) (Portfolio.balance tb);
              Portfolio.tb_symbol := Portfolio.tb_symbol c;
              Portfolio.tb_decimals := Portfolio.tb_decimals c |}
       | None =>
           {| Portfolio.balance := float_plus "0" (Portfolio.balance tb);
              Portfolio.tb_symbol := Portfolio.tb_symbol tb;
              Portfolio.tb_decimals := Portfolio.tb_decimals tb |}
       end.

(** ** Concrete runs *)

(** A tracker with the default registry and the given wallets. *)
Definition tracker_of (ws : list Address) : Portfolio.PortfolioTracker :=
  fold_left (fun t a => Portfolio.addWallet t a "") ws
    (Portfolio.new_tracker None).

(** A node on which 0xa, 0xb and 0xc hold 0.1, 0.2 and 0.3 ether, 0xd holds
    0.0005 ether, 0xe holds 1 ether and 0xf 0.000001 ether; 0xa also holds
    0.001 USDC and 0.001001 USDT; every other read fails. *)
Definition demo_node : Portfolio.Node :=
  fun _ q =>
    match q with
    | Portfolio.GetBalance a =>
        if String.eqb a "0xa" then Some (10 ^ 17)
        else if String.eqb a "0xb" then Some (2 * 10 ^ 17)
        else if String.eqb a "0xc" then Some (3 * 10 ^ 17)
        else if String.eqb a "0xd" then Some (5 * 10 ^ 14)
        else if String.eqb a "0xe" then Some (10 ^ 18)
        else if String.eqb a "0xf" then Some (10 ^ 12)
        else None
    | Portfolio.BalanceOf token a =>
        if String.eqb a "0xa" then
          if String.eqb token "0xA0b86a33E6441c8EBb6E6c8c8c9c5C8C8c8c8c8c"
          then Some 1000
          else if String.eqb token "0xdAC17F958D2ee523a2206206994597C13D831ec7"
          then Some 1001
          else None
        else None
    end.

(** The aggregated balance string of a symbol after a run over [ws]. *)
Definition aggregated (ws : list Address) (s : string) : option string :=
  option_map Portfolio.balance
    (Obj.get s (Portfolio.aggregatedBalances
                  (fst (fst (Portfolio.aggregatePortfolio demo_node
                                (tracker_of ws) []))))).

(** A percentage that is no number. *)
Definition no_number (s : string) : Prop :=
  s = "NaN" \/ s = "Infinity" \/ s = "-Infinity".

(** An oracle that prices everything at 2000.5. *)
Definition steady_oracle : Portfolio.Oracle :=
  fun _ _ => Portfolio.Response true
               (Portfolio.Json (Some (JS.parseFloat "2000.5"))).

(** The valuation of a run over [ws] with the given oracle. *)
Definition valued (oracle : Portfolio.Oracle) (ws : list Address)
  : Portfolio.PortfolioValue :=
  fst (fst (fst (Portfolio.calculatePortfolioValue demo_node oracle
                   (tracker_of ws) [] []))).

(** A Number that is [+0] or [-0]. *)
Definition is_zero (x : JS.Number) : Prop :=
  match x with S754_zero _ => True | _ => False end.


(** ** Further vocabulary *)

(** The supply the scan runs to when no end is given: the total supply, or,
    when it is not available, 0 (the end is then given). *)
Definition supply_or_0 (c : Snapshot.Contract) : Z :=
  match Snapshot.totalSupply c with Some n => n | None => 0 end.

(** The owners the indices of [ids] resolved to, in scan order. *)
Definition resolved_owners (c : Snapshot.Contract) (ids : list Z)
  : list Address :=
  flat_map (fun i => match Snapshot.ownerOf c i with
                     | Some a => [a]
                     | None => []
                     end) ids.

(** One more element for a list without repetition: it goes last unless it
    is there already. *)
Definition see (acc : list string) (a : string) : list string :=
  if existsb (String.eqb a) acc then acc else (acc ++ [a])%list.

(** The elements of a list in the order of their first occurrence. *)
Definition first_seen (l : list string) : list string := fold_left see l [].

(** A node whose replies do not depend on when it is asked. *)
Definition stationary (node : Portfolio.Node) : Prop :=
  forall n m q, node n q = node m q.

(** A Number that is finite. *)
Definition is_finite (x : JS.Number) : Prop :=
  match x with
  | S754_zero _ | S754_finite _ _ _ => True
  | _ => False
  end.

(** [addWallet] called for each address and label of a list, in order. *)
Definition add_wallets (t : Portfolio.PortfolioTracker)
  (ws : list (Address * string)) : Portfolio.PortfolioTracker :=
  fold_left (fun t e => Portfolio.addWallet t (fst e) (snd e)) ws t.

(** The wallet entry [addWallet] makes of an address and a label. *)
Definition wallet_of (e : Address * string) : Portfolio.WalletConfig :=
  {| Portfolio.w_address := JS.toLowerCase (fst e);
     Portfolio.label := snd e |}.

(** The symbols of the aggregate that have no usable price in a cache. *)
Definition unpriced (cache : Portfolio.PriceCache) (syms : list string)
  : list string :=
  filter (fun s => match Portfolio.cache_hit cache s with
                   | Some _ => false
                   | None => true
                   end) syms.

(** A holder comes before another in the exports when its count is not
    smaller. *)
Definition count_ge (a b : Address * Z) : Prop := snd b <= snd a.

(** The holders with a given count, in the order of a list. *)
Definition with_count (v : Z) (l : list (Address * Z)) : list (Address * Z) :=
  filter (fun e => snd e =? v) l.

(** ** Reading a CSV export back *)

(** The line feed character. *)
Definition lf : ascii := ascii_of_nat 10.

(** The character [c] does not occur in [s]. *)
Fixpoint lacks (c : ascii) (s : string) : bool :=
  match s with
  | EmptyString => true
  | String a r => (negb (Ascii.eqb a c) && lacks c r)%bool
  end.

(** [s.split(c)]. *)
Fixpoint split_on (c : ascii) (s : string) : list string :=
  match s with
  | EmptyString => [EmptyString]
  | String a r =>
      if Ascii.eqb a c then EmptyString :: split_on c r
      else match split_on c r with
           | h :: t => String a h :: t
           | [] => [String a EmptyString]
           end
  end.

(** The integer a string of decimal digits stands for. *)
Definition Z_of_string (s : string) : option Z :=
  option_map Z.of_int (NilZero.int_of_string s).

(** A row [address,count] read back. *)
Definition read_row (row : string) : option (Address * Z) :=
  match split_on "," row with
  | [a; n] => option_map (pair a) (Z_of_string n)
  | _ => None
  end.

Fixpoint read_rows (rows : list string) : option (list (Address * Z)) :=
  match rows with
  | [] => Some []
  | r :: rest =>
      match read_row r, read_rows rest with
      | Some e, Some l => Some (e :: l)
      | _, _ => None
      end
  end.

(** A CSV export read back: the header line, then one row per line; a
    single empty line after the header stands for no holder. *)
Definition read_csv (s : string) : option (list (Address * Z)) :=
  match split_on lf s with
  | header :: rows =>
      if String.eqb header "Address,Token Count" then
        match rows with
        | [EmptyString] => Some []
        | _ => read_rows rows
        end
      else None
  | [] => None
  end.

(** Counts that are integers a Number holds exactly, as a tally has them:
    there Number subtraction has the sign of the difference and the template
    string of a count is its decimal digits. *)
Definition counts_exact (s : Snapshot.NFTSnapshot) : Prop :=
  Forall (fun e => Z.abs (snd e) <= 2 ^ 53) (Obj.entries s).

(** An address that can stand in a CSV row: no comma, no line feed. *)
Definition csv_safe (a : Address) : Prop :=
  lacks "," a = true /\ lacks lf a = true.

(** ** Valuation *)

(** The row of a symbol with balance [data] and price [p], before its
    percentage is known. *)
Definition row_of (sym : string) (data : Portfolio.TokenBalance)
  (p : JS.Number) : Portfolio.AssetValue :=
  {| Portfolio.av_symbol := sym;
     Portfolio.av_balance := JS.toFixed (JS.parseFloat (Portfolio.balance data)) 6;
     Portfolio.price := JS.toFixed p 2;
     Portfolio.value :=
       JS.toFixed (JS.num_mul (JS.parseFloat (Portfolio.balance data)) p) 2;
     Portfolio.percentage := "0" |}.

(** The state [calculatePortfolioValue] values: the tracker once something
    is aggregated, and the log of balance queries. *)
Definition prepared (node : Portfolio.Node) (t : Portfolio.PortfolioTracker)
  (log : list Portfolio.query)
  : Portfolio.PortfolioTracker * list Portfolio.query :=
  match Obj.keys (Portfolio.aggregatedBalances (Portfolio.portfolioData t)) with
  | [] => (snd (fst (Portfolio.aggregatePortfolio node t log)),
           snd (Portfolio.aggregatePortfolio node t log))
  | _ :: _ => (t, log)
  end.

(** A row that shows a price and a value of 0 and no percentage. *)
Definition dead_row (r : Portfolio.AssetValue) : Prop :=
  Portfolio.price r = "0.00" /\ Portfolio.value r = "0.00".

(** A tracker that holds an aggregate and prices, as after a first
    valuation of one wallet with 1 ether at 2000.5. *)
Definition warm_tracker : Portfolio.PortfolioTracker :=
  snd (fst (fst (Portfolio.calculatePortfolioValue demo_node steady_oracle
                   (tracker_of ["0xe"]) [] []))).

(** An oracle that answers 2000.5 under an error status. *)
Definition error_oracle : Portfolio.Oracle :=
  fun _ _ => Portfolio.Response false
               (Portfolio.Json (Some (JS.parseFloat "2000.5"))).

(** ** Keys that JavaScript lists first *)

(** An array index: the canonical decimal numeral of an integer from 0 to
    2^32 - 2. An object lists such keys first, in ascending order, and the
    other string keys after them in the order of their insertion. *)
Definition array_index (k : string) : bool :=
  match Z_of_string k with
  | Some n => ((0 <=? n) && (n <? 2 ^ 32 - 1) && String.eqb (JS.Z_to_string n) k)%bool
  | None => false
  end.

(** No owner is an array index: owners are addresses, [0x...]. *)
Definition owners_not_indices (c : Snapshot.Contract) : Prop :=
  forall i a, Snapshot.ownerOf c i = Some a -> array_index a = false.

(* ================================================================== *)
(** * Facts about dictionaries *)
(* ================================================================== *)

Section ObjFacts.
Context {V : Type}.
Implicit Types (o : Obj.t V) (k : string) (v : V).

Lemma get_set_eq o k v : Obj.get k (Obj.set k v o) = Some v.
Proof.
  induction o as [|[k' v'] r IH]; simpl.
  - now rewrite String.eqb_refl.
  - destruct (String.eqb k k') eqn:E; simpl; rewrite E; auto.
Qed.

Lemma get_set_ne o k k' v :
  k <> k' -> Obj.get k' (Obj.set k v o) = Obj.get k' o.
Proof.
  intros Hne. induction o as [|[k0 v0] r IH]; simpl.
  - destruct (String.eqb k' k) eqn:E; auto.
    apply String.eqb_eq in E. congruence.
  - destruct (String.eqb k k0) eqn:E; simpl.
    + apply String.eqb_eq in E. subst k0.
      destruct (String.eqb k' k) eqn:E'; auto.
      apply String.eqb_eq in E'. congruence.
    + now rewrite IH.
Qed.

Lemma get_None_keys o k : Obj.get k o = None <-> ~ In k (Obj.keys o).
Proof.
  induction o as [|[k' v'] r IH]; simpl.
  - tauto.
  - destruct (String.eqb k k') eqn:E.
    + apply String.eqb_eq in E. subst. split; [discriminate | tauto].
    + apply String.eqb_neq in E. rewrite IH. intuition congruence.
Qed.

Lemma get_Some_keys o k v : Obj.get k o = Some v -> In k (Obj.keys o).
Proof.
  intros H. destruct (in_dec string_dec k (Obj.keys o)) as [Hi|Hn]; auto.
  apply get_None_keys in Hn. congruence.
Qed.

Lemma set_present o k v v0 :
  Obj.get k o = Some v0 -> Obj.keys (Obj.set k v o) = Obj.keys o.
Proof.
  induction o as [|[k' v'] r IH]; simpl; [discriminate|].
  destruct (String.eqb k k') eqn:E; simpl; auto.
  intros H. now rewrite (IH H).
Qed.

Lemma set_absent o k v :
  Obj.get k o = None -> Obj.set k v o = (o ++ [(k, v)])%list.
Proof.
  induction o as [|[k' v'] r IH]; simpl; auto.
  destruct (String.eqb k k') eqn:E; [discriminate|].
  intros H. now rewrite (IH H).
Qed.

Lemma wf_set o k v : Obj.wf o -> Obj.wf (Obj.set k v o).
Proof.
  unfold Obj.wf. intros Hwf.
  destruct (Obj.get k o) as [v0|] eqn:G.
  - now rewrite (set_present _ _ _ _ G).
  - rewrite (set_absent _ _ _ G). unfold Obj.keys. rewrite map_app. simpl.
    apply NoDup_app; auto.
    + repeat constructor. simpl. tauto.
    + intros x Hx [<-|[]]. now apply get_None_keys in G.
Qed.

Lemma wf_empty : Obj.wf (@Obj.empty V).
Proof. constructor. Qed.

Lemma get_In o k v : Obj.get k o = Some v -> In (k, v) o.
Proof.
  induction o as [|[k' v'] r IH]; simpl; [discriminate|].
  destruct (String.eqb k k') eqn:E.
  - apply String.eqb_eq in E. intros [= ->]. subst. now left.
  - intros H. right. auto.
Qed.

Lemma In_get o k v : Obj.wf o -> In (k, v) o -> Obj.get k o = Some v.
Proof.
  unfold Obj.wf.
  induction o as [|[k' v'] r IH]; simpl; [tauto|].
  intros Hwf [H|H].
  - injection H as -> ->. now rewrite String.eqb_refl.
  - inversion Hwf as [|? ? Hn Hr]; subst.
    destruct (String.eqb k k') eqn:E; auto.
    apply String.eqb_eq in E. subst k'.
    exfalso. apply Hn. change (In (fst (k, v)) (map fst r)). now apply in_map.
Qed.

Lemma values_set_Forall (P : V -> Prop) o k v :
  Forall P (Obj.values o) -> P v -> Forall P (Obj.values (Obj.set k v o)).
Proof.
  unfold Obj.values.
  induction o as [|[k' v'] r IH]; simpl; intros Ho Hv.
  - constructor; auto.
  - inversion Ho; subst.
    destruct (String.eqb k k'); simpl; constructor; auto.
Qed.
End ObjFacts.

(* ================================================================== *)
(** * The holder tally *)
(* ================================================================== *)

Section TallyFacts.
Import JS Snapshot.

Lemma total_set h k v :
  tally_total (Obj.set k v h) = tally_total h - count_of h k + v.
Proof.
  unfold tally_total, count_of, Obj.values.
  induction h as [|[k' v'] r IH]; simpl.
  - lia.
  - destruct (String.eqb k k') eqn:E; simpl; [lia | rewrite IH; lia].
Qed.

Lemma count_le_total h k :
  Forall (fun v => 0 < v) (Obj.values h) -> 0 <= count_of h k <= tally_total h.
Proof.
  unfold tally_total, count_of, Obj.values.
  induction h as [|[k' v'] r IH]; simpl; intros Hp.
  - lia.
  - inversion Hp; subst. specialize (IH H2).
    destruct (String.eqb k k'); simpl in *.
    + assert (0 <= fold_right Z.add 0 (map snd r)) by (destruct (Obj.get k r); lia).
      lia.
    + lia.
Qed.

Lemma count_of_set_eq h k v : count_of (Obj.set k v h) k = v.
Proof. unfold count_of. now rewrite get_set_eq. Qed.

Lemma count_of_set_ne h k k' v :
  k <> k' -> count_of (Obj.set k v h) k' = count_of h k'.
Proof. intros. unfold count_of. now rewrite get_set_ne. Qed.

Lemma bump_count h a : bump h a = count_succ (count_of h a).
Proof.
  unfold bump, count_of. destruct (Obj.get a h) as [n|]; auto.
  destruct (n =? 0) eqn:E; auto. apply Z.eqb_eq in E. now subst.
Qed.

Lemma owned_by_cons c a i l :
  owned_by c a (i :: l) = owned_by c a [i] + owned_by c a l.
Proof.
  unfold owned_by. cbn [filter].
  destruct (ownerOf c i) as [o|]; [destruct (String.eqb o a)|];
    cbn [List.length]; lia.
Qed.

Lemma resolved_count_cons c i l :
  resolved_count c (i :: l) = resolved_count c [i] + resolved_count c l.
Proof.
  unfold resolved_count. cbn [filter].
  destruct (ownerOf c i); cbn [List.length]; lia.
Qed.

Lemma visit_spec c h i :
  owners_nonempty c -> tally_ok h -> tally_total h < 2 ^ 53 ->
  tally_ok (visit c h i)
  /\ (forall a, count_of (visit c h i) a = count_of h a + owned_by c a [i])
  /\ tally_total (visit c h i) = tally_total h + resolved_count c [i].
Proof.
  intros Hne [Hwf Hpos] Hlt.
  unfold visit, getTokenOwner, owned_by, resolved_count. simpl.
  destruct (ownerOf c i) as [o|] eqn:Ho.
  - assert (Ht : str_truthy o = true)
      by (destruct o; [exfalso; now apply (Hne i "") | reflexivity]).
    rewrite Ht, bump_count.
    pose proof (count_le_total h o Hpos) as Hc.
    unfold count_succ.
    assert (Hs : (count_of h o <? 2 ^ 53) = true) by (apply Z.ltb_lt; lia).
    rewrite Hs. repeat split.
    + now apply wf_set.
    + apply values_set_Forall; auto. lia.
    + intros a. destruct (String.eqb o a) eqn:E.
      * apply String.eqb_eq in E. subst a. rewrite count_of_set_eq. simpl. lia.
      * apply String.eqb_neq in E. rewrite count_of_set_ne by auto. simpl. lia.
    + rewrite total_set. simpl. lia.
  - repeat split; auto; intros; simpl; lia.
Qed.

Lemma scan_log c n : forall i h,
  snd (scan c n i h) = map CallOwnerOf (index_range i n).
Proof.
  induction n as [|n IH]; intros i h; simpl; auto.
  specialize (IH (i + 1) (visit c h i)).
  destruct (scan c n (i + 1) (visit c h i)) as [h' log]. simpl in *.
  now rewrite IH.
Qed.

Lemma scan_fst_S c n i h :
  fst (scan c (S n) i h) = fst (scan c n (i + 1) (visit c h i)).
Proof. simpl. now destruct (scan c n (i + 1) (visit c h i)). Qed.

Lemma scan_spec c n : forall i h,
  owners_nonempty c -> tally_ok h -> tally_total h + Z.of_nat n <= 2 ^ 53 ->
  tally_ok (fst (scan c n i h))
  /\ (forall a, count_of (fst (scan c n i h)) a
                = count_of h a + owned_by c a (index_range i n))
  /\ tally_total (fst (scan c n i h))
     = tally_total h + resolved_count c (index_range i n).
Proof.
  induction n as [|n IH]; intros i h Hne Hok Hb.
  - simpl. unfold owned_by, resolved_count. simpl.
    repeat split; try apply Hok; intros; lia.
  - destruct (visit_spec c h i Hne Hok) as (Hok1 & Hc1 & Ht1); [lia|].
    assert (Hr : 0 <= resolved_count c [i] <= 1).
    { unfold resolved_count. cbn [filter].
      destruct (ownerOf c i); cbn [List.length]; lia. }
    destruct (IH (i + 1) (visit c h i) Hne Hok1) as (Hok2 & Hc2 & Ht2); [lia|].
    rewrite scan_fst_S. cbn [index_range].
    repeat split; try apply Hok2.
    + intros a. rewrite Hc2, Hc1, (owned_by_cons c a i (index_range (i + 1) n)). lia.
    + rewrite Ht2, Ht1, (resolved_count_cons c i (index_range (i + 1) n)). lia.
Qed.

Lemma length_index_range i n : List.length (index_range i n) = n.
Proof. revert i. induction n; intros; simpl; auto. Qed.

(** The entry of an address in a tally whose counts are those of [ids]. *)
Lemma tally_entry (h : NFTSnapshot) (f : Address -> Z) :
  tally_ok h -> (forall a, count_of h a = f a) ->
  forall a, Obj.get a h = if f a =? 0 then None else Some (f a).
Proof.
  intros [Hwf Hpos] Hc a. specialize (Hc a). unfold count_of in Hc.
  destruct (Obj.get a h) as [v|] eqn:G.
  - assert (0 < v).
    { apply get_In in G. rewrite Forall_forall in Hpos. apply Hpos.
      unfold Obj.values. change v with (snd (a, v)). now apply in_map. }
    subst. destruct (f a =? 0) eqn:E; auto. apply Z.eqb_eq in E. lia.
  - rewrite <- Hc. reflexivity.
Qed.

(** What a scan from the empty tally returns. *)
Lemma scan_range_tally c startId endId supply :
  owners_nonempty c ->
  let ids := index_range (scan_start startId)
               (Z.to_nat (scan_end endId supply - scan_start startId)) in
  snd (scan_range c startId endId supply) = map CallOwnerOf ids
  /\ (Z.of_nat (List.length ids) <= 2 ^ 53 ->
      let h := fst (scan_range c startId endId supply) in
      tally_ok h
      /\ (forall a, Obj.get a h
                    = if owned_by c a ids =? 0 then None
                      else Some (owned_by c a ids))
      /\ tally_total h = resolved_count c ids).
Proof.
  intros Hne ids. unfold scan_range. split; [apply scan_log|].
  intros Hlen. subst ids. rewrite length_index_range in Hlen.
  assert (Hok0 : tally_ok (@Obj.empty Z)) by (split; constructor).
  destruct (scan_spec c
              (Z.to_nat (scan_end endId supply - scan_start startId))
              (scan_start startId) Obj.empty Hne Hok0)
    as (Hok & Hc & Ht).
  { unfold tally_total. simpl. lia. }
  repeat split; try apply Hok.
  - apply tally_entry; auto.
  - rewrite Ht. unfold tally_total. simpl. lia.
Qed.

Lemma visit_owner c h i a :
  ownerOf c i = Some a -> str_truthy a = true ->
  visit c h i = Obj.set a (count_succ (count_of h a)) h.
Proof.
  intros Ho Ht. unfold visit, getTokenOwner. now rewrite Ho, Ht, bump_count.
Qed.

Lemma visit_none c h i : ownerOf c i = None -> visit c h i = h.
Proof. intros Ho. unfold visit, getTokenOwner. now rewrite Ho. Qed.

Lemma createSnapshot_supply c startId endId supply :
  totalSupply c = Some supply ->
  fst (createSnapshot c startId endId)
  = Returns (fst (scan_range c startId endId supply))
  /\ snd (createSnapshot c startId endId)
     = CallTotalSupply :: snd (scan_range c startId endId supply).
Proof.
  intros Hts. unfold createSnapshot, getTotalSupply. rewrite Hts.
  now destruct (scan_range c startId endId supply).
Qed.

(** Scenario A, for any two distinct owners [X] and [Y]. *)
Lemma scenario_A c X Y :
  X <> "" -> Y <> "" -> X <> Y ->
  totalSupply c = Some 5 ->
  ownerOf c 0 = Some X -> ownerOf c 1 = None -> ownerOf c 2 = Some X ->
  ownerOf c 3 = None -> ownerOf c 4 = Some Y ->
  fst (createSnapshot c None None) = Returns [(X, 2); (Y, 1)].
Proof.
  intros HX HY HXY Hts H0 H1 H2 H3 H4.
  assert (TX : str_truthy X = true) by (destruct X; [congruence | reflexivity]).
  assert (TY : str_truthy Y = true) by (destruct Y; [congruence | reflexivity]).
  assert (EYX : String.eqb Y X = false) by (apply String.eqb_neq; congruence).
  rewrite (proj1 (createSnapshot_supply c None None 5 Hts)).
  unfold scan_range, scan_start, scan_end, or_default.
  change (Z.to_nat (5 - 0)) with 5%nat.
  rewrite !scan_fst_S. cbn [scan fst Z.add Pos.add Pos.succ].
  rewrite (visit_owner c _ 0 X H0 TX). unfold count_of, count_succ. cbn.
  rewrite (visit_none c _ 1 H1), (visit_owner c _ 2 X H2 TX).
  unfold count_of, count_succ. cbn. rewrite String.eqb_refl. cbn.
  rewrite (visit_none c _ 3 H3), (visit_owner c _ 4 Y H4 TY).
  unfold count_of, count_succ. cbn. rewrite EYX. reflexivity.
Qed.
End TallyFacts.

(* ================================================================== *)
(** * [createSnapshot] and [getAirdropEligible] *)
(* ================================================================== *)

Section SnapshotFacts.
Import JS Snapshot.

Lemma createSnapshot_failed_supply c startId endId :
  totalSupply c = None ->
  createSnapshot c startId endId
  = if (negb (given startId) || negb (given endId))%bool
    then (Throws range_error, [CallTotalSupply])
    else (Returns (fst (scan_range c startId endId (or_default endId 0))),
          CallTotalSupply :: snd (scan_range c startId endId (or_default endId 0))).
Proof.
  intros Hts. unfold createSnapshot, getTotalSupply. rewrite Hts.
  destruct (negb (given startId) || negb (given endId))%bool; auto.
  now destruct (scan_range c startId endId (or_default endId 0)).
Qed.

(** A snapshot that is returned is the tally of a scan that started from
    the empty tally, after the one call for the total supply. *)
Lemma createSnapshot_returns c startId endId h log :
  createSnapshot c startId endId = (Returns h, log) ->
  exists supply,
    h = fst (scan_range c startId endId supply)
    /\ log = CallTotalSupply :: snd (scan_range c startId endId supply).
Proof.
  destruct (totalSupply c) as [n|] eqn:Hts.
  - destruct (createSnapshot_supply c startId endId n Hts) as [Hf Hs].
    intros E. rewrite E in Hf, Hs. simpl in Hf, Hs.
    exists n. split; congruence.
  - rewrite (createSnapshot_failed_supply c startId endId Hts).
    destruct (negb (given startId) || negb (given endId))%bool; [discriminate|].
    intros [= <- <-]. now exists (or_default endId 0).
Qed.

Lemma queried_ids_map ids : queried_ids (map CallOwnerOf ids) = ids.
Proof. induction ids; simpl; congruence. Qed.

Lemma In_filter_keys (P : Z -> bool) (o : NFTSnapshot) a :
  In a (map fst (filter (fun e => P (snd e)) o))
  <-> exists n, In (a, n) o /\ P n = true.
Proof.
  rewrite in_map_iff. split.
  - intros [[k n] [<- Hin]]. apply filter_In in Hin. now exists n.
  - intros [n [Hin HP]]. exists (a, n). split; auto. now apply filter_In.
Qed.

Lemma NoDup_filter_keys (P : string * Z -> bool) (o : NFTSnapshot) :
  NoDup (map fst o) -> NoDup (map fst (filter P o)).
Proof.
  induction o as [|[k n] r IH]; simpl; intros Hn; [constructor|].
  inversion Hn as [|? ? Hk Hr]; subst.
  destruct (P (k, n)); simpl; auto.
  constructor; auto.
  intros Hin. apply Hk. apply in_map_iff in Hin. destruct Hin as [e [He Hin]].
  apply filter_In in Hin. apply in_map_iff. exists e. tauto.
Qed.

Lemma filter_all {A} (P : A -> bool) (l : list A) :
  Forall (fun x => P x = true) l -> filter P l = l.
Proof. induction 1 as [|x l Hx _ IH]; simpl; [|rewrite Hx, IH]; auto. Qed.
End SnapshotFacts.

(* ================================================================== *)
(** * The price cache *)
(* ================================================================== *)

Section PriceFacts.
Import JS Portfolio.

Lemma cache_hit_get cache cache' sym :
  Obj.get sym cache' = Obj.get sym cache ->
  cache_hit cache' sym = cache_hit cache sym.
Proof. unfold cache_hit. now intros ->. Qed.

Lemma cache_hit_zero cache sym :
  cache_hit (Obj.set sym num_zero cache) sym = None.
Proof. unfold cache_hit. now rewrite get_set_eq. Qed.

Lemma cache_hit_truthy cache sym p :
  Obj.get sym cache = Some p -> num_truthy p = true ->
  cache_hit cache sym = Some p.
Proof. unfold cache_hit. now intros -> ->. Qed.

Lemma usd_or_0_truthy p : num_truthy p = true -> usd_or_0 (Some p) = p.
Proof. unfold usd_or_0, num_or. now intros ->. Qed.

(** The price stored is the one returned, and it is truthy or [+0]. *)
Lemma usd_or_0_cases usd :
  num_truthy (usd_or_0 usd) = true \/ usd_or_0 usd = num_zero.
Proof.
  destruct usd as [p|]; simpl; auto.
  unfold num_or. destruct (num_truthy p) eqn:E; auto.
Qed.

(** A lookup without a hit asks the oracle once. *)
Lemma getTokenPrice_miss oracle cache olog sym :
  cache_hit cache sym = None ->
  getTokenPrice oracle cache olog sym
  = let id := getCoingeckoId sym in
    let olog' := (olog ++ [id])%list in
    match oracle (List.length olog) id with
    | Response true (Json usd) =>
        (usd_or_0 usd, Obj.set sym (usd_or_0 usd) cache, olog')
    | _ => (num_zero, cache, olog')
    end.
Proof.
  intros Hm. unfold getTokenPrice. rewrite Hm. cbv zeta.
  destruct (oracle _ _) as [|[|] [|usd]]; reflexivity.
Qed.

Lemma getTokenPrice_js_miss oracle cache olog sym :
  cache_hit cache sym = None ->
  getTokenPrice_js oracle cache olog sym
  = let id := getCoingeckoId sym in
    let olog' := (olog ++ [id])%list in
    match oracle (List.length olog) id with
    | Response _ (Json usd) =>
        (usd_or_0 usd, Obj.set sym (usd_or_0 usd) cache, olog')
    | _ => (num_zero, cache, olog')
    end.
Proof.
  intros Hm. unfold getTokenPrice_js. rewrite Hm. cbv zeta.
  destruct (oracle _ _) as [|[|] [|usd]]; reflexivity.
Qed.

Lemma getTokenPrice_hit oracle cache olog sym p :
  cache_hit cache sym = Some p ->
  getTokenPrice oracle cache olog sym = (p, cache, olog)
  /\ getTokenPrice_js oracle cache olog sym = (p, cache, olog).
Proof. intros Hh. unfold getTokenPrice, getTokenPrice_js. now rewrite Hh. Qed.

(** A lookup of [sym'] leaves the entry of any other symbol alone. *)
Lemma getTokenPrice_frame oracle cache olog sym sym' :
  sym' <> sym ->
  Obj.get sym (snd (fst (getTokenPrice oracle cache olog sym')))
  = Obj.get sym cache
  /\ Obj.get sym (snd (fst (getTokenPrice_js oracle cache olog sym')))
     = Obj.get sym cache.
Proof.
  intros Hne. unfold getTokenPrice, getTokenPrice_js.
  destruct (cache_hit cache sym'); simpl; auto.
  destruct (oracle _ _) as [|[|] [|usd]]; simpl; auto;
    rewrite get_set_ne by auto; auto.
Qed.
(** Where the symbol has no hit, a later lookup that the oracle answers
    with a real price returns and stores that price. *)
Lemma later_lookup oracle cache1 sym :
  cache_hit cache1 sym = None ->
  forall cache2 olog2 real,
    Obj.get sym cache2 = Obj.get sym cache1 ->
    num_truthy real = true ->
    oracle (List.length olog2) (getCoingeckoId sym)
    = Response true (Json (Some real)) ->
    getTokenPrice oracle cache2 olog2 sym
    = (real, Obj.set sym real cache2, (olog2 ++ [getCoingeckoId sym])%list)
    /\ getTokenPrice_js oracle cache2 olog2 sym
       = (real, Obj.set sym real cache2, (olog2 ++ [getCoingeckoId sym])%list).
Proof.
  intros H1 cache2 olog2 real Hg Ht Ho.
  assert (H2 : cache_hit cache2 sym = None)
    by (rewrite (cache_hit_get cache1 cache2 sym Hg); exact H1).
  rewrite (getTokenPrice_miss _ _ _ _ H2), (getTokenPrice_js_miss _ _ _ _ H2).
  cbv zeta. rewrite Ho. now rewrite (usd_or_0_truthy real Ht).
Qed.
End PriceFacts.

(* ================================================================== *)
(** * Collecting the balances of a wallet *)
(* ================================================================== *)

Section WalletFacts.
Import JS Viem Portfolio.
Variable node : Node.
Variable w : Address.

Lemma has_address_contract token :
  has_address token = true -> address token = Some (contract_of token).
Proof.
  unfold has_address, contract_of. destruct (address token); [auto|discriminate].
Qed.

Lemma token_step_skip st k token :
  has_address token = false -> token_step node w st (k, token) = st.
Proof.
  unfold has_address, token_step. destruct st as [bals log].
  destruct (address token) as [a|]; auto. now intros ->.
Qed.

Lemma token_step_ask bals log k token :
  has_address token = true ->
  token_step node w (bals, log) (k, token)
  = let q := BalanceOf (contract_of token) w in
    let b := absorbed (node (List.length log) q) in
    let bals' : WalletBalances :=
      if above_dust token b then Obj.set k (kept_as token b) bals else bals in
    (bals', (log ++ [q])%list).
Proof.
  intros Ha. unfold token_step. rewrite (has_address_contract _ Ha).
  unfold has_address in Ha. rewrite (has_address_contract _ Ha) in Ha.
  rewrite Ha. unfold getTokenBalance, above_dust, absorbed, kept_as. cbv zeta.
  destruct (node (List.length log) (BalanceOf (contract_of token) w)) as [b|];
    [destruct (0 <? b)|]; simpl; auto.
  destruct (num_gt _ _); auto.
Qed.

(** The loop over the registry, from any state. *)
Lemma token_fold (l : list (string * TokenConfig)) : forall bals log,
  NoDup (map fst l) ->
  let asked_l := filter (fun e => has_address (snd e)) l in
  let r := fold_left (token_step node w) l (bals, log) in
  snd r = (log ++ token_queries asked_l w)%list
  /\ (forall j k token,
      nth_error asked_l j = Some (k, token) ->
      let b := absorbed (node (List.length log + j)%nat
                           (BalanceOf (contract_of token) w)) in
      Obj.get k (fst r)
      = if above_dust token b then Some (kept_as token b) else Obj.get k bals)
  /\ (forall k, ~ In k (map fst asked_l) -> Obj.get k (fst r) = Obj.get k bals)
  /\ (Obj.wf bals -> Obj.wf (fst r)).
Proof.
  induction l as [|[k0 tok0] l IH]; intros bals log Hnd; cbn zeta.
  - simpl. rewrite app_nil_r. repeat split; auto.
    intros [|j] k token; discriminate.
  - inversion Hnd as [|? ? Hk0 Hnd']; subst.
    cbn [fold_left filter snd].
    destruct (has_address tok0) eqn:Ha.
    + rewrite (token_step_ask bals log k0 tok0 Ha). cbv zeta.
      set (q0 := BalanceOf (contract_of tok0) w).
      set (b0 := absorbed (node (List.length log) q0)).
      set (bals1 := if above_dust tok0 b0
                    then Obj.set k0 (kept_as tok0 b0) bals else bals).
      destruct (IH bals1 (log ++ [q0])%list Hnd') as (Hlog & Hask & Hrest & Hwf).
      assert (Hk0' : ~ In k0 (map fst (filter (fun e => has_address (snd e)) l))).
      { intros Hin. apply Hk0. apply in_map_iff in Hin.
        destruct Hin as [e [He Hin]]. apply filter_In in Hin.
        apply in_map_iff. exists e. tauto. }
      assert (Hget1 : forall k, k <> k0 -> Obj.get k bals1 = Obj.get k bals).
      { intros k Hne. unfold bals1. destruct (above_dust tok0 b0); auto.
        apply get_set_ne. congruence. }
      repeat split.
      * eapply eq_trans; [exact Hlog|]. unfold token_queries. cbn [map snd].
        now rewrite <- app_assoc.
      * intros [|j] k token Hnth; cbn [nth_error] in Hnth.
        -- injection Hnth as <- <-. rewrite Nat.add_0_r.
           eapply eq_trans; [exact (Hrest k0 Hk0')|]. fold q0 b0. unfold bals1.
           destruct (above_dust tok0 b0); auto. apply get_set_eq.
        -- specialize (Hask j k token Hnth). cbv zeta in Hask.
           rewrite length_app in Hask. cbn [List.length] in Hask.
           replace (List.length log + 1 + j)%nat
             with (List.length log + S j)%nat in Hask by lia.
           eapply eq_trans; [exact Hask|].
           destruct (above_dust token _); auto.
           apply Hget1. intros ->. apply Hk0'.
           apply nth_error_In in Hnth.
           change k0 with (fst (k0, token)). now apply in_map.
      * intros k Hk. cbn [map fst] in Hk.
        eapply eq_trans; [apply Hrest; intros Hin; apply Hk; now right|].
        apply Hget1. intros ->. apply Hk. now left.
      * intros Hb. apply Hwf. unfold bals1.
        destruct (above_dust tok0 b0); auto. now apply wf_set.
    + rewrite (token_step_skip (bals, log) k0 tok0 Ha).
      apply (IH bals log Hnd').
Qed.

Lemma getETHBalance_absorbed log :
  getETHBalance node log w
  = (formatEther (absorbed (node (List.length log) (GetBalance w))),
     (log ++ [GetBalance w])%list).
Proof.
  unfold getETHBalance, absorbed.
  now destruct (node (List.length log) (GetBalance w)).
Qed.

Lemma getWalletBalances_fold toks log :
  getWalletBalances node toks log w
  = fold_left (token_step node w) (Obj.entries toks)
      (native_start node w log, (log ++ [GetBalance w])%list).
Proof.
  unfold getWalletBalances. rewrite getETHBalance_absorbed. reflexivity.
Qed.

Lemma native_start_get log k :
  Obj.get k (native_start node w log)
  = if String.eqb k "ETH" then
      let eth := formatEther (absorbed (node (List.length log) (GetBalance w))) in
      if num_gt (parseFloat eth) num_zero then Some (native_entry eth) else None
    else None.
Proof.
  unfold native_start. cbv zeta.
  destruct (num_gt _ _); simpl; destruct (String.eqb k "ETH"); auto.
Qed.

Lemma native_start_wf log : Obj.wf (native_start node w log).
Proof.
  unfold native_start. cbv zeta.
  destruct (num_gt _ _); [apply wf_set|]; apply wf_empty.
Qed.

End WalletFacts.

(* ================================================================== *)
(** * Aggregating over the wallets *)
(* ================================================================== *)

Section AggregateFacts.
Import JS Viem Portfolio.

Lemma fold_left_ext {A B} (f g : A -> B -> A) (l : list B) :
  (forall a b, f a b = g a b) -> forall a, fold_left f l a = fold_left g l a.
Proof.
  intros Hfg. induction l as [|b l IH]; intros a; simpl; auto.
  now rewrite Hfg, IH.
Qed.

Lemma token_step_cases node w bals log k token :
  token_step node w (bals, log) (k, token)
  = if has_address token then
      let q := BalanceOf (contract_of token) w in
      let b := absorbed (node (List.length log) q) in
      let bals' : WalletBalances :=
        if above_dust token b then Obj.set k (kept_as token b) bals else bals in
      (bals', (log ++ [q])%list)
    else (bals, log).
Proof.
  destruct (has_address token) eqn:Ha.
  - now apply token_step_ask.
  - now apply token_step_skip.
Qed.

(** The loop over the registry keeps the balances an object and asks for
    every token that has an address, whatever the registry. *)
Lemma token_fold_wf_log node w (l : list (string * TokenConfig)) :
  forall bals log,
    let r := fold_left (token_step node w) l (bals, log) in
    (Obj.wf bals -> Obj.wf (fst r))
    /\ snd r
       = (log ++ token_queries
                   (filter (fun e => has_address (snd e)) l) w)%list.
Proof.
  induction l as [|[k tok] l IH]; intros bals log; cbn zeta.
  - simpl. now rewrite app_nil_r.
  - cbn [fold_left filter snd]. rewrite token_step_cases.
    destruct (has_address tok); cbv zeta; [|apply IH].
    set (b := absorbed (node (List.length log) (BalanceOf (contract_of tok) w))).
    destruct (IH (if above_dust tok b
                  then Obj.set k (kept_as tok b) bals else bals)
                (log ++ [BalanceOf (contract_of tok) w])%list) as [Hwf Hlog].
    split.
    + intros Hb. apply Hwf. destruct (above_dust tok _); auto. now apply wf_set.
    + eapply eq_trans; [exact Hlog|]. unfold token_queries. cbn [map snd].
      now rewrite <- app_assoc.
Qed.

Lemma balances_wf node toks log w :
  Obj.wf (fst (getWalletBalances node toks log w)).
Proof.
  rewrite getWalletBalances_fold.
  apply (token_fold_wf_log node w (Obj.entries toks)), native_start_wf.
Qed.

Lemma balances_log node toks log w :
  snd (getWalletBalances node toks log w) = (log ++ wallet_queries toks w)%list.
Proof.
  rewrite getWalletBalances_fold.
  rewrite (proj2 (token_fold_wf_log node w (Obj.entries toks) _ _)).
  unfold wallet_queries, asked. now rewrite <- app_assoc.
Qed.

(** Two nodes whose replies are the same once failures are read as 0 give
    the same balances. *)
Lemma getWalletBalances_ext node node' toks log w :
  (forall n q, absorbed (node n q) = absorbed (node' n q)) ->
  getWalletBalances node toks log w = getWalletBalances node' toks log w.
Proof.
  intros He. rewrite !getWalletBalances_fold.
  assert (Hn : native_start node w log = native_start node' w log)
    by (unfold native_start; now rewrite He).
  rewrite Hn. apply fold_left_ext.
  intros [bals lg] [k tok]. rewrite !token_step_cases.
  destruct (has_address tok); [cbv zeta; now rewrite He | reflexivity].
Qed.

Lemma zero_at_absorbed j node n q :
  absorbed (zero_at j node n q) = absorbed (node n q).
Proof. unfold zero_at. now destruct (Nat.eqb n j). Qed.

(** ** Merging one wallet into the aggregate *)

Lemma merge_balance_get agg k d s :
  Obj.get s (merge_balance agg (k, d))
  = if String.eqb s k then add_retained (Obj.get k agg) d else Obj.get s agg.
Proof.
  unfold merge_balance, add_retained.
  destruct (Obj.get k agg) as [c|] eqn:G.
  - rewrite G. destruct (String.eqb s k) eqn:E.
    + apply String.eqb_eq in E. subst. now rewrite get_set_eq.
    + apply String.eqb_neq in E. rewrite get_set_ne; auto.
  - rewrite get_set_eq. destruct (String.eqb s k) eqn:E.
    + apply String.eqb_eq in E. subst. now rewrite get_set_eq.
    + apply String.eqb_neq in E. rewrite !get_set_ne; auto.
Qed.

Lemma merge_fold (bals : WalletBalances) : forall agg,
  Obj.wf bals ->
  forall s, Obj.get s (fold_left merge_balance bals agg)
            = match Obj.get s bals with
              | Some tb => add_retained (Obj.get s agg) tb
              | None => Obj.get s agg
              end.
Proof.
  induction bals as [|[k d] r IH]; intros agg Hwf s; [reflexivity|].
  inversion Hwf as [|? ? Hk Hr]; subst.
  cbn [fold_left]. rewrite (IH _ Hr s), merge_balance_get. cbn [Obj.get].
  destruct (String.eqb s k) eqn:E.
  - apply String.eqb_eq in E. subst s.
    apply get_None_keys in Hk. now rewrite Hk.
  - reflexivity.
Qed.

Lemma add_retained_Some bs : forall c,
  fold_left add_retained bs (Some c)
  = Some {| balance := fold_left float_plus (map balance bs) (balance c);
            tb_symbol := tb_symbol c; tb_decimals := tb_decimals c |}.
Proof.
  induction bs as [|b bs IH]; intros c; simpl.
  - now destruct c.
  - unfold add_retained at 2. now rewrite IH.
Qed.

Lemma add_retained_None bs :
  fold_left add_retained bs None
  = match bs with
    | [] => None
    | tb :: _ =>
        Some {| balance := float_sum (map balance bs);
                tb_symbol := tb_symbol tb; tb_decimals := tb_decimals tb |}
    end.
Proof.
  destruct bs as [|tb bs]; simpl; auto.
  unfold add_retained at 2. now rewrite add_retained_Some.
Qed.

Lemma retained_app s d1 d2 :
  retained s (d1 ++ d2) = (retained s d1 ++ retained s d2)%list.
Proof. unfold retained. apply flat_map_app. Qed.

(** ** The loop over the wallets *)

Lemma wallet_step_eq node toks agg details log wl :
  wallet_step node toks (agg, details, log) wl
  = (fold_left merge_balance
       (Obj.entries (fst (getWalletBalances node toks log (w_address wl)))) agg,
     (details ++ [ {| wd_address := w_address wl; wd_label := label wl;
                      balances := fst (getWalletBalances node toks log
                                         (w_address wl)) |} ])%list,
     snd (getWalletBalances node toks log (w_address wl))).
Proof.
  unfold wallet_step.
  now destruct (getWalletBalances node toks log (w_address wl)).
Qed.

Lemma wallets_fold node toks (ws : list WalletConfig) :
  forall agg details log,
    let r := fold_left (wallet_step node toks) ws (agg, details, log) in
    exists fresh,
      snd (fst r) = (details ++ fresh)%list
      /\ map wd_address fresh = map w_address ws
      /\ map wd_label fresh = map label ws
      /\ (forall s, Obj.get s (fst (fst r))
                    = fold_left add_retained (retained s fresh) (Obj.get s agg))
      /\ snd r = (log ++ queries_of toks ws)%list.
Proof.
  induction ws as [|wl ws IH]; intros agg details log; cbn zeta.
  - exists []. simpl. now rewrite !app_nil_r.
  - cbn [fold_left]. rewrite wallet_step_eq.
    set (bals := fst (getWalletBalances node toks log (w_address wl))).
    set (wd := {| wd_address := w_address wl; wd_label := label wl;
                  balances := bals |}).
    destruct (IH (fold_left merge_balance (Obj.entries bals) agg)
                (details ++ [wd])%list
                (snd (getWalletBalances node toks log (w_address wl))))
      as (fresh & Hd & Ha & Hl & Hg & Hlog).
    exists (wd :: fresh). repeat split.
    + eapply eq_trans; [exact Hd|]. now rewrite <- app_assoc.
    + simpl. now rewrite Ha.
    + simpl. now rewrite Hl.
    + intros s. eapply eq_trans; [exact (Hg s)|].
      unfold Obj.entries. rewrite (merge_fold bals agg (balances_wf _ _ _ _) s).
      unfold retained. cbn [flat_map balances wd].
      destruct (Obj.get s bals); reflexivity.
    + eapply eq_trans; [exact Hlog|]. rewrite balances_log.
      unfold queries_of. cbn [flat_map]. now rewrite <- app_assoc.
Qed.
Lemma aggregatePortfolio_eq node t log :
  aggregatePortfolio node t log
  = let r := fold_left (wallet_step node (tokens t)) (wallets t)
               (Obj.empty, [], log) in
    let pd := {| aggregatedBalances := fst (fst r);
                 walletDetails := snd (fst r) |} in
    (pd, set_portfolioData t pd, snd r).
Proof.
  unfold aggregatePortfolio.
  now destruct (fold_left _ _ _) as [[agg details] log'].
Qed.

Lemma aggregatePortfolio_ext node node' t log :
  (forall n q, absorbed (node n q) = absorbed (node' n q)) ->
  aggregatePortfolio node t log = aggregatePortfolio node' t log.
Proof.
  intros He. unfold aggregatePortfolio.
  rewrite (fold_left_ext (wallet_step node (tokens t))
             (wallet_step node' (tokens t))); auto.
  intros [[agg details] lg] wl. unfold wallet_step.
  now rewrite (getWalletBalances_ext node node' _ _ _ He).
Qed.
End AggregateFacts.

(* ================================================================== *)
(** * The claims about the snapshot tool *)
(* ================================================================== *)

Lemma scenario_owners : owners_nonempty scenario_contract.
Proof.
  intros i a. unfold scenario_contract. simpl.
  destruct ((i =? 0) || (i =? 2))%bool; [intros [= <-]; discriminate|].
  destruct (i =? 4); [intros [= <-]|]; discriminate.
Qed.

(** C1. For every scan, the tally [createSnapshot] returns gives each owner
    address the number of scanned indices that resolved to it and has no
    entry for any other address; the sum of its values is the number of
    indices whose [ownerOf] query succeeded, and every value is strictly
    positive. The scanned indices are read off the log of calls; owners are
    non-empty strings (addresses), and the scan has at most 2^53 indices, the
    range in which a Number count is incremented exactly. In particular, on
    [0,5) with 1 and 3 unresolved and 0, 2, 4 owned by X, X, Y, the tally is
    [{X: 2, Y: 1}]. *)
Theorem createSnapshot_tally :
  (forall c startId endId h log,
      owners_nonempty c ->
      Snapshot.createSnapshot c startId endId = (Returns h, log) ->
      let ids := queried_ids log in
      log = Snapshot.CallTotalSupply :: map Snapshot.CallOwnerOf ids
      /\ (Z.of_nat (List.length ids) <= 2 ^ 53 ->
          (forall a, Obj.get a h
                     = if owned_by c a ids =? 0 then None
                       else Some (owned_by c a ids))
          /\ tally_total h = resolved_count c ids
          /\ Forall (fun v => 0 < v) (Obj.values h)))
  /\ (forall c X Y,
      X <> "" -> Y <> "" -> X <> Y ->
      Snapshot.totalSupply c = Some 5 ->
      Snapshot.ownerOf c 0 = Some X -> Snapshot.ownerOf c 1 = None ->
      Snapshot.ownerOf c 2 = Some X -> Snapshot.ownerOf c 3 = None ->
      Snapshot.ownerOf c 4 = Some Y ->
      fst (Snapshot.createSnapshot c None None) = Returns [(X, 2); (Y, 1)]).
Proof.
  split.
  - intros c startId endId h log Hne Hrun ids.
    destruct (createSnapshot_returns c startId endId h log Hrun)
      as (supply & Hh & Hlog).
    destruct (scan_range_tally c startId endId supply Hne) as [Hl Ht].
    assert (Hids : ids = index_range (Snapshot.scan_start startId)
                     (Z.to_nat (Snapshot.scan_end endId supply
                                - Snapshot.scan_start startId))).
    { subst ids. rewrite Hlog, Hl. simpl. apply queried_ids_map. }
    split.
    + rewrite Hids, Hlog, Hl. reflexivity.
    + rewrite Hids. intros Hlen. destruct (Ht Hlen) as ([_ Hpos] & Hget & Htot).
      subst h. auto.
  - apply scenario_A.
Qed.

Lemma createSnapshot_tally_witness :
  tally_total [("0xX", 2); ("0xY", 1)] = 3
  /\ fst (Snapshot.createSnapshot scenario_contract None None)
     = Returns [("0xX", 2); ("0xY", 1)].
Proof.
  split.
  - destruct (proj1 createSnapshot_tally scenario_contract None None _ _
                scenario_owners eq_refl) as [_ H].
    destruct H as (_ & Ht & _); [vm_compute; discriminate | exact Ht].
  - apply (proj2 createSnapshot_tally scenario_contract "0xX" "0xY");
      try reflexivity; discriminate.
Defined.

(** C4, as the code has it, for bounds that are integers (the bounds are
    of type [Z]: a bound that is not an integer is refused by [BigInt] with
    a RangeError, which is no part of this statement). When the
    total-supply query fails, [createSnapshot] throws the configuration
    error as soon as the start or the end bound is missing, having made no
    [ownerOf] call; when both bounds are given and are not 0, it scans
    exactly [startId, endId); when the total-supply query succeeds it never
    throws; and whenever it throws, the total-supply query had failed and no
    index was scanned. *)
Theorem createSnapshot_range_error c startId endId :
  (Snapshot.totalSupply c = None -> startId = None \/ endId = None ->
   Snapshot.createSnapshot c startId endId
   = (Throws Snapshot.range_error, [Snapshot.CallTotalSupply]))
  /\ (forall s e,
      Snapshot.totalSupply c = None ->
      startId = Some s -> endId = Some e -> s <> 0 -> e <> 0 ->
      exists h,
        Snapshot.createSnapshot c startId endId
        = (Returns h,
           Snapshot.CallTotalSupply
             :: map Snapshot.CallOwnerOf (index_range s (Z.to_nat (e - s)))))
  /\ (forall n, Snapshot.totalSupply c = Some n ->
      exists h, fst (Snapshot.createSnapshot c startId endId) = Returns h)
  /\ (forall msg log,
      Snapshot.createSnapshot c startId endId = (Throws msg, log) ->
      msg = Snapshot.range_error /\ Snapshot.totalSupply c = None
      /\ log = [Snapshot.CallTotalSupply]).
Proof.
  repeat split.
  - intros Hts Hmiss. rewrite (createSnapshot_failed_supply c _ _ Hts).
    destruct Hmiss as [-> | ->]; simpl; auto.
    now rewrite orb_true_r.
  - intros s e Hts -> -> Hs He.
    rewrite (createSnapshot_failed_supply c _ _ Hts).
    apply Z.eqb_neq in Hs, He. unfold Snapshot.given. rewrite Hs, He. simpl.
    eexists. f_equal. f_equal.
    unfold Snapshot.scan_range, Snapshot.scan_start, Snapshot.scan_end,
      Snapshot.or_default. rewrite Hs, He. apply scan_log.
  - intros n Hts. eexists.
    apply (proj1 (createSnapshot_supply c startId endId n Hts)).
  - destruct (Snapshot.totalSupply c) as [n|] eqn:Hts.
    + destruct (createSnapshot_supply c startId endId n Hts) as [Hf _].
      rewrite H in Hf. discriminate.
    + rewrite (createSnapshot_failed_supply c _ _ Hts) in H.
      destruct (negb (Snapshot.given startId) || negb (Snapshot.given endId))%bool;
        congruence.
  - destruct (Snapshot.totalSupply c) as [n|] eqn:Hts; auto.
    destruct (createSnapshot_supply c startId endId n Hts) as [Hf _].
    rewrite H in Hf. discriminate.
  - destruct (Snapshot.totalSupply c) as [n|] eqn:Hts.
    + destruct (createSnapshot_supply c startId endId n Hts) as [Hf _].
      rewrite H in Hf. discriminate.
    + rewrite (createSnapshot_failed_supply c _ _ Hts) in H.
      destruct (negb (Snapshot.given startId) || negb (Snapshot.given endId))%bool;
        congruence.
Qed.

Lemma createSnapshot_range_error_witness :
  Snapshot.createSnapshot no_supply_contract None None
  = (Throws Snapshot.range_error, [Snapshot.CallTotalSupply])
  /\ exists h,
       Snapshot.createSnapshot no_supply_contract (Some 1) (Some 5)
       = (Returns h,
          Snapshot.CallTotalSupply
            :: map Snapshot.CallOwnerOf (index_range 1 (Z.to_nat (5 - 1)))).
Proof.
  split.
  - apply (proj1 (createSnapshot_range_error no_supply_contract None None));
      [reflexivity | left; reflexivity].
  - apply (proj1 (proj2 (createSnapshot_range_error no_supply_contract
                           (Some 1) (Some 5))) 1 5);
      try reflexivity; discriminate.
Defined.

(** C4 as stated fails: the total-supply query fails, the caller gives the
    explicit end 5 (and no start), and [createSnapshot] throws the
    configuration error instead of scanning the caller's range. *)
Lemma explicit_end_still_fatal :
  Snapshot.totalSupply no_supply_contract = None
  /\ Snapshot.given (Some 5) = true
  /\ Snapshot.createSnapshot no_supply_contract None (Some 5)
     = (Throws Snapshot.range_error, [Snapshot.CallTotalSupply]).
Proof. repeat split. Qed.

(** C10. For every snapshot (an object: no key twice) and every threshold
    [minTokens] (1 when omitted), [getAirdropEligible] returns exactly the
    addresses whose count is at least the threshold, each of them once; with
    the default threshold, on a tally (every count at least 1), it returns
    every holder, in the order of the snapshot. The function builds a new
    array and has no access to anything but its arguments. *)
Theorem getAirdropEligible_spec snapshot minTokens :
  Obj.wf snapshot ->
  let m := match minTokens with Some m => m | None => 1 end in
  (forall a, In a (Snapshot.getAirdropEligible snapshot minTokens)
             <-> exists n, Obj.get a snapshot = Some n /\ m <= n)
  /\ NoDup (Snapshot.getAirdropEligible snapshot minTokens)
  /\ (Forall (fun v => 1 <= v) (Obj.values snapshot) ->
      Snapshot.getAirdropEligible snapshot None = Obj.keys snapshot).
Proof.
  intros Hwf m. unfold Snapshot.getAirdropEligible, Obj.entries. fold m.
  repeat split.
  - rewrite (In_filter_keys (fun n => m <=? n)).
    intros [n [Hin Hm]]. exists n. split; [now apply In_get | now apply Z.leb_le].
  - intros [n [Hg Hm]]. apply (In_filter_keys (fun n => m <=? n)).
    exists n. split; [now apply get_In | now apply Z.leb_le].
  - now apply NoDup_filter_keys.
  - intros Hall. rewrite filter_all; auto.
    unfold Obj.values in Hall. rewrite Forall_map in Hall.
    eapply Forall_impl; [|exact Hall]. intros e He. now apply Z.leb_le.
Qed.

Lemma getAirdropEligible_spec_witness :
  NoDup (Snapshot.getAirdropEligible [("0xX", 2); ("0xY", 1)] (Some 2))
  /\ Snapshot.getAirdropEligible [("0xX", 2); ("0xY", 1)] None = ["0xX"; "0xY"].
Proof.
  assert (Hwf : Obj.wf [("0xX", 2); ("0xY", 1)]).
  { repeat constructor; simpl; intuition discriminate. }
  split.
  - apply (proj1 (proj2 (getAirdropEligible_spec _ (Some 2) Hwf))).
  - apply (proj2 (proj2 (getAirdropEligible_spec _ (Some 2) Hwf))).
    repeat constructor; simpl; lia.
Defined.

(* ================================================================== *)
(** * The claims about the price cache *)
(* ================================================================== *)

(** Failed lookups are not cached. For every symbol, when a price lookup is
    made and fails, [getTokenPrice] returns 0 after one request to the
    oracle and leaves no entry that a later lookup would take for a cached
    price: in any later state of the run where the entry of the symbol is
    still the one this call left, the lookup asks the oracle again, and
    returns and stores the real price when the oracle then gives one.
    Lookups of other symbols leave the entry alone. For the TypeScript
    version a lookup fails when [fetch] throws, the response is not a
    success, its body cannot be read or has no price for the id. For the
    JavaScript version this holds of the lookups where [fetch] throws or the
    body cannot be read or has no price; it does not hold of a response with
    an error status that carries a price. *)
Theorem getTokenPrice_failure_not_cached oracle cache olog sym :
  Portfolio.cache_hit cache sym = None ->
  let id := Portfolio.getCoingeckoId sym in
  (failed_lookup (oracle (List.length olog) id) = true ->
   let '(p, cache', olog') := Portfolio.getTokenPrice oracle cache olog sym in
   p = JS.num_zero /\ olog' = (olog ++ [id])%list
   /\ Portfolio.cache_hit cache' sym = None
   /\ (forall cache2 olog2 real,
       Obj.get sym cache2 = Obj.get sym cache' ->
       JS.num_truthy real = true ->
       oracle (List.length olog2) id
       = Portfolio.Response true (Portfolio.Json (Some real)) ->
       Portfolio.getTokenPrice oracle cache2 olog2 sym
       = (real, Obj.set sym real cache2, (olog2 ++ [id])%list))
   /\ (forall sym' olog2, sym' <> sym ->
       Obj.get sym
         (snd (fst (Portfolio.getTokenPrice oracle cache' olog2 sym')))
       = Obj.get sym cache'))
  /\ (failed_lookup_js (oracle (List.length olog) id) = true ->
   let '(p, cache', olog') := Portfolio.getTokenPrice_js oracle cache olog sym in
   p = JS.num_zero /\ olog' = (olog ++ [id])%list
   /\ Portfolio.cache_hit cache' sym = None
   /\ (forall cache2 olog2 real,
       Obj.get sym cache2 = Obj.get sym cache' ->
       JS.num_truthy real = true ->
       oracle (List.length olog2) id
       = Portfolio.Response true (Portfolio.Json (Some real)) ->
       Portfolio.getTokenPrice_js oracle cache2 olog2 sym
       = (real, Obj.set sym real cache2, (olog2 ++ [id])%list))
   /\ (forall sym' olog2, sym' <> sym ->
       Obj.get sym
         (snd (fst (Portfolio.getTokenPrice_js oracle cache' olog2 sym')))
       = Obj.get sym cache')).
Proof.
  intros Hmiss id. subst id. split; intros Hfail.
  - rewrite (getTokenPrice_miss oracle cache olog sym Hmiss). cbv zeta.
    destruct (oracle (List.length olog) (Portfolio.getCoingeckoId sym))
      as [|[|] [|[real|]]]; try discriminate Hfail;
      (split; [reflexivity|]); (split; [reflexivity|]);
      (split; [first [exact Hmiss | apply cache_hit_zero]|]);
      (split;
       [ intros cache2 olog2 real' Hg Ht Ho;
         refine (proj1 (later_lookup oracle _ sym _ cache2 olog2 real' Hg Ht Ho));
         first [exact Hmiss | apply cache_hit_zero]
       | intros sym' olog2 Hne;
         apply (proj1 (getTokenPrice_frame oracle _ olog2 sym sym' Hne)) ]).
  - rewrite (getTokenPrice_js_miss oracle cache olog sym Hmiss). cbv zeta.
    destruct (oracle (List.length olog) (Portfolio.getCoingeckoId sym))
      as [|[|] [|[real|]]]; try discriminate Hfail;
      (split; [reflexivity|]); (split; [reflexivity|]);
      (split; [first [exact Hmiss | apply cache_hit_zero]|]);
      (split;
       [ intros cache2 olog2 real' Hg Ht Ho;
         refine (proj2 (later_lookup oracle _ sym _ cache2 olog2 real' Hg Ht Ho));
         first [exact Hmiss | apply cache_hit_zero]
       | intros sym' olog2 Hne;
         apply (proj2 (getTokenPrice_frame oracle _ olog2 sym sym' Hne)) ]).
Qed.

Lemma getTokenPrice_failure_not_cached_witness :
  fst (fst (Portfolio.getTokenPrice flaky_oracle [] [] "ETH")) = JS.num_zero
  /\ Portfolio.getTokenPrice flaky_oracle [] ["ethereum"] "ETH"
     = (JS.parseFloat "2000.5", [("ETH", JS.parseFloat "2000.5")],
        ["ethereum"; "ethereum"]).
Proof.
  pose proof (proj1 (getTokenPrice_failure_not_cached
                       flaky_oracle [] [] "ETH" eq_refl) eq_refl) as H.
  cbn in H. destruct H as (Hp & _ & _ & Hlater & _).
  split; [reflexivity|].
  apply (Hlater [] ["ethereum"] (JS.parseFloat "2000.5"));
    vm_compute; reflexivity.
Defined.

(** C5, where the JavaScript version breaks it. A response with an error
    status is a failed lookup, and for it the TypeScript version, which
    tests [response.ok], returns 0 and stores nothing. The JavaScript
    version does not look at the status: when such a response carries a
    price (here 2000.5), it returns that price, not 0, and stores it; from
    then on every lookup of the symbol returns the stored price and asks the
    oracle nothing, whatever the oracle would answer. For every symbol and
    whatever was requested before. *)
Theorem getTokenPrice_js_caches_error_response sym olog :
  let id := Portfolio.getCoingeckoId sym in
  let p := JS.parseFloat "2000.5" in
  failed_lookup (error_oracle (List.length olog) id) = true
  /\ Portfolio.getTokenPrice error_oracle Obj.empty olog sym
     = (JS.num_zero, Obj.empty, (olog ++ [id])%list)
  /\ Portfolio.getTokenPrice_js error_oracle Obj.empty olog sym
     = (p, [(sym, p)], (olog ++ [id])%list)
  /\ (forall oracle olog2,
      Portfolio.getTokenPrice_js oracle [(sym, p)] olog2 sym
      = (p, [(sym, p)], olog2)).
Proof.
  intros id p.
  assert (Hp : JS.num_truthy p = true) by (vm_compute; reflexivity).
  assert (Hmiss : Portfolio.cache_hit Obj.empty sym = None) by reflexivity.
  split; [reflexivity|]. split; [|split].
  - rewrite (getTokenPrice_miss error_oracle Obj.empty olog sym Hmiss).
    reflexivity.
  - rewrite (getTokenPrice_js_miss error_oracle Obj.empty olog sym Hmiss).
    cbv zeta. unfold error_oracle. fold p.
    rewrite (usd_or_0_truthy p Hp). reflexivity.
  - intros oracle olog2.
    apply (getTokenPrice_hit oracle [(sym, p)] olog2 sym p).
    apply cache_hit_truthy; [|exact Hp].
    exact (get_set_eq Obj.empty sym p).
Qed.

(** C6, as the code has it. For every symbol whose cached price is truthy
    (neither 0 nor NaN), a lookup returns the cached price, asks the oracle
    nothing and leaves the cache as it is; and no lookup, of this or of any
    other symbol, changes the entry, so every later lookup of the symbol in
    the run is served from the cache. For every symbol whose stored price is
    not truthy (0 or NaN), the stored price is not taken for a cached one:
    the lookup asks the oracle once more, and when the oracle answers with a
    real price it returns that price and stores it in place of the old
    entry. Both versions. *)
Theorem cached_price_is_reused oracle cache olog sym p :
  Obj.get sym cache = Some p ->
  (JS.num_truthy p = true ->
   (Portfolio.getTokenPrice oracle cache olog sym = (p, cache, olog)
    /\ Portfolio.getTokenPrice_js oracle cache olog sym = (p, cache, olog))
   /\ (forall sym',
       Obj.get sym (snd (fst (Portfolio.getTokenPrice oracle cache olog sym')))
       = Some p
       /\ Obj.get sym
            (snd (fst (Portfolio.getTokenPrice_js oracle cache olog sym')))
          = Some p))
  /\ (JS.num_truthy p = false ->
      let id := Portfolio.getCoingeckoId sym in
      snd (Portfolio.getTokenPrice oracle cache olog sym) = (olog ++ [id])%list
      /\ snd (Portfolio.getTokenPrice_js oracle cache olog sym)
         = (olog ++ [id])%list
      /\ (forall real,
          JS.num_truthy real = true ->
          oracle (List.length olog) id
          = Portfolio.Response true (Portfolio.Json (Some real)) ->
          Portfolio.getTokenPrice oracle cache olog sym
          = (real, Obj.set sym real cache, (olog ++ [id])%list)
          /\ Portfolio.getTokenPrice_js oracle cache olog sym
             = (real, Obj.set sym real cache, (olog ++ [id])%list))).
Proof.
  intros Hg. split.
  - intros Ht.
    pose proof (getTokenPrice_hit oracle cache olog sym p
                  (cache_hit_truthy cache sym p Hg Ht)) as [H1 H2].
    split; [now split|].
    intros sym'. destruct (string_dec sym' sym) as [->|Hne].
    + rewrite H1, H2. now split.
    + destruct (getTokenPrice_frame oracle cache olog sym sym' Hne) as [F1 F2].
      rewrite F1, F2. now split.
  - intros Hf id. subst id.
    assert (Hmiss : Portfolio.cache_hit cache sym = None)
      by (unfold Portfolio.cache_hit; rewrite Hg, Hf; reflexivity).
    split; [|split].
    + rewrite (getTokenPrice_miss oracle cache olog sym Hmiss). cbv zeta.
      destruct (oracle _ _) as [|[|] [|usd]]; reflexivity.
    + rewrite (getTokenPrice_js_miss oracle cache olog sym Hmiss). cbv zeta.
      destruct (oracle _ _) as [|[|] [|usd]]; reflexivity.
    + intros real Ht Ho.
      exact (later_lookup oracle cache sym Hmiss cache olog real eq_refl Ht Ho).
Qed.

Lemma cached_price_is_reused_witness :
  Portfolio.getTokenPrice dead_oracle [("ETH", JS.parseFloat "2000.5")] [] "ETH"
  = (JS.parseFloat "2000.5", [("ETH", JS.parseFloat "2000.5")], [])
  /\ snd (Portfolio.getTokenPrice dead_oracle [("DUST", JS.num_zero)]
            ["dust"] "DUST")
     = ["dust"; "dust"].
Proof.
  split.
  - apply (proj1 (proj1 (proj1 (cached_price_is_reused dead_oracle
                                  [("ETH", JS.parseFloat "2000.5")] [] "ETH"
                                  (JS.parseFloat "2000.5") eq_refl)
                          eq_refl))).
  - refine (eq_trans
              (proj1 (proj2 (cached_price_is_reused dead_oracle
                               [("DUST", JS.num_zero)] ["dust"] "DUST"
                               JS.num_zero eq_refl)
                        eq_refl)) _).
    reflexivity.
Defined.

(** C6 as stated fails on a cached price of 0: the oracle answers the first
    lookup of DUST with the price 0, which is stored; the next lookup does
    not return the stored 0 but asks the oracle again (the log grows) and
    returns what it now says, 5. *)
Lemma cached_zero_is_requeried :
  Portfolio.getTokenPrice zero_then_five [] [] "DUST"
  = (JS.num_zero, [("DUST", JS.num_zero)], ["dust"])
  /\ Portfolio.getTokenPrice zero_then_five [("DUST", JS.num_zero)] ["dust"] "DUST"
     = (JS.parseFloat "5", [("DUST", JS.parseFloat "5")], ["dust"; "dust"]).
Proof. split; vm_compute; reflexivity. Qed.

(* ================================================================== *)
(** * The claims about the portfolio tracker *)
(* ================================================================== *)

(** C7, as the code has it. For every wallet: a token of the registry that
    has a contract address is kept exactly when its balance is positive and
    its formatted value, read as a Number, is strictly greater than the
    Number 0.001, so a balance that formats to 0.001 is left out; what is
    kept is the formatted on-chain value itself, with the symbol and the
    decimals of the token. The native balance is kept exactly when it is
    strictly greater than 0: the threshold 0.001 is not applied to it.
    Nothing else is kept. Token number [j] of those asked is answered by
    call number [length log + 1 + j]. The registry is an object: no key
    twice. *)
Theorem getWalletBalances_dust_filter node toks log w :
  Obj.wf toks ->
  let bals := fst (Portfolio.getWalletBalances node toks log w) in
  (forall j k token,
      nth_error (asked toks) j = Some (k, token) ->
      let b := absorbed (node (S (List.length log) + j)%nat
                           (Portfolio.BalanceOf (contract_of token) w)) in
      (above_dust token b = true -> Obj.get k bals = Some (kept_as token b))
      /\ (above_dust token b = false -> k <> "ETH" -> Obj.get k bals = None)
      /\ (Viem.formatUnits b (Portfolio.decimals token) = "0.001" ->
          above_dust token b = false))
  /\ (~ In "ETH" (map fst (asked toks)) ->
      let eth := fst (Portfolio.getETHBalance node log w) in
      Obj.get "ETH" bals
      = if JS.num_gt (JS.parseFloat eth) JS.num_zero
        then Some (native_entry eth) else None)
  /\ (forall k, k <> "ETH" -> ~ In k (map fst (asked toks)) ->
      Obj.get k bals = None).
Proof.
  intros Hwf bals. subst bals. rewrite getWalletBalances_fold.
  destruct (token_fold node w (Obj.entries toks) (native_start node w log)
              (log ++ [Portfolio.GetBalance w])%list Hwf)
    as (_ & Hask & Hrest & _).
  split; [|split].
  - intros j k token Hnth b.
    pose proof (Hask j k token Hnth) as H0. cbv zeta in H0.
    rewrite length_app in H0. cbn [List.length] in H0.
    replace (List.length log + 1 + j)%nat
      with (S (List.length log) + j)%nat in H0 by lia.
    fold b in H0. repeat split.
    + intros Hd. eapply eq_trans; [exact H0|]. now rewrite Hd.
    + intros Hd Hk. eapply eq_trans; [exact H0|]. rewrite Hd, native_start_get.
      apply String.eqb_neq in Hk. now rewrite Hk.
    + intros Hf. unfold above_dust. rewrite Hf.
      replace (JS.num_gt (JS.parseFloat "0.001") JS.lit_0_001) with false
        by (vm_compute; reflexivity).
      apply andb_false_r.
  - intros Hn. eapply eq_trans; [exact (Hrest "ETH" Hn)|].
    rewrite native_start_get, getETHBalance_absorbed. reflexivity.
  - intros k Hk Hn. eapply eq_trans; [exact (Hrest k Hn)|].
    rewrite native_start_get. apply String.eqb_neq in Hk. now rewrite Hk.
Qed.

Lemma DEFAULT_TOKENS_wf : Obj.wf Portfolio.DEFAULT_TOKENS.
Proof.
  unfold Obj.wf, Portfolio.DEFAULT_TOKENS, Obj.keys. simpl.
  repeat constructor; simpl; intuition discriminate.
Qed.

Lemma getWalletBalances_dust_filter_witness :
  let bals := fst (Portfolio.getWalletBalances demo_node
                     Portfolio.DEFAULT_TOKENS [] "0xa") in
  Obj.get "USDC" bals = None
  /\ Obj.get "USDT" bals
     = Some {| Portfolio.balance := "0.001001"; Portfolio.tb_symbol := "USDT";
               Portfolio.tb_decimals := 6 |}
  /\ Obj.get "ETH" bals = Some (native_entry "0.1").
Proof.
  intros bals. subst bals.
  destruct (getWalletBalances_dust_filter demo_node Portfolio.DEFAULT_TOKENS
              [] "0xa" DEFAULT_TOKENS_wf) as (Htok & Hnat & _).
  split; [|split].
  - destruct (Htok 0%nat "USDC" _ eq_refl) as (_ & Hout & Hthr).
    apply Hout; [apply Hthr; vm_compute; reflexivity | discriminate].
  - destruct (Htok 1%nat "USDT" _ eq_refl) as (Hin & _ & _).
    eapply eq_trans; [apply Hin; vm_compute; reflexivity|].
    vm_compute; reflexivity.
  - eapply eq_trans; [apply Hnat|vm_compute; reflexivity].
    vm_compute. intros H.
    repeat (destruct H as [H|H]; [discriminate H|]). exact H.
Defined.

(** C7 as stated fails on the native asset: a wallet holding 0.0005 ether,
    which is below the threshold 0.001, has its native balance kept. *)
Lemma native_dust_is_retained :
  JS.num_gt (JS.parseFloat "0.0005") JS.lit_0_001 = false
  /\ Obj.get "ETH" (fst (Portfolio.getWalletBalances demo_node
                           Portfolio.DEFAULT_TOKENS [] "0xd"))
     = Some (native_entry "0.0005").
Proof. split; vm_compute; reflexivity. Qed.

(** C8. A balance read that fails counts as a balance of 0: whichever call
    fails, [aggregatePortfolio] returns the portfolio, the tracker and the
    log of calls it returns when the node answers that call with 0. The run
    asks for the native balance and for every token with an address, for
    every wallet in turn, whatever the replies, and has one per-wallet
    result for each wallet, in order. *)
Theorem balance_failure_absorbed node t log :
  (forall j, Portfolio.aggregatePortfolio (zero_at j node) t log
             = Portfolio.aggregatePortfolio node t log)
  /\ snd (Portfolio.aggregatePortfolio node t log)
     = (log ++ queries_of (Portfolio.tokens t) (Portfolio.wallets t))%list
  /\ map Portfolio.wd_address
       (Portfolio.walletDetails (fst (fst (Portfolio.aggregatePortfolio node t log))))
     = map Portfolio.w_address (Portfolio.wallets t).
Proof.
  split; [|split].
  - intros j. apply aggregatePortfolio_ext. intros n q. apply zero_at_absorbed.
  - rewrite aggregatePortfolio_eq. cbv zeta. cbn [snd].
    destruct (wallets_fold node (Portfolio.tokens t) (Portfolio.wallets t)
                Obj.empty [] log) as (fresh & _ & _ & _ & _ & Hlog).
    exact Hlog.
  - rewrite aggregatePortfolio_eq. cbv zeta. cbn [fst Portfolio.walletDetails].
    destruct (wallets_fold node (Portfolio.tokens t) (Portfolio.wallets t)
                Obj.empty [] log) as (fresh & Hd & Ha & _).
    exact (eq_trans (f_equal (map Portfolio.wd_address) Hd) Ha).
Qed.

(** C2, as the code has it. For every list of wallets and every symbol, the
    aggregated entry of the symbol is determined by the per-wallet results:
    there is none when no wallet retains the symbol; otherwise its balance is
    what adding the retained balances one after the other, in wallet order,
    as Numbers ([parseFloat], [+], [toString]) from 0 gives, and its symbol
    and decimals are those of the first wallet that retains it. The
    per-wallet results follow the wallet list. *)
Theorem aggregate_is_float_sum node t log s :
  let pd := fst (fst (Portfolio.aggregatePortfolio node t log)) in
  Obj.get s (Portfolio.aggregatedBalances pd)
  = aggregate_of s (Portfolio.walletDetails pd)
  /\ map Portfolio.wd_address (Portfolio.walletDetails pd)
     = map Portfolio.w_address (Portfolio.wallets t).
Proof.
  cbv zeta. rewrite aggregatePortfolio_eq. cbv zeta.
  cbn [fst Portfolio.walletDetails Portfolio.aggregatedBalances].
  destruct (wallets_fold node (Portfolio.tokens t) (Portfolio.wallets t)
              Obj.empty [] log) as (fresh & Hd & Ha & _ & Hg & _).
  split; [|exact (eq_trans (f_equal (map Portfolio.wd_address) Hd) Ha)].
  eapply eq_trans; [exact (Hg s)|].
  match goal with
  | |- _ = aggregate_of _ ?d => assert (Hd' : d = fresh) by exact Hd
  end.
  rewrite Hd'. unfold aggregate_of.
  change (Obj.get s Obj.empty) with (@None Portfolio.TokenBalance).
  rewrite add_retained_None. now destruct (retained s fresh).
Qed.

(** C2 as stated fails. Two wallets holding 0.1 and 0.2 ether aggregate to
    0.30000000000000004 where the sum of the amounts is 0.3; and three
    wallets holding 0.1, 0.2 and 0.3 ether aggregate to 0.6000000000000001
    in this order and to 0.6 in the reverse order. *)
Lemma float_sum_inexact_and_ordered :
  aggregated ["0xa"; "0xb"] "ETH" = Some "0.30000000000000004"
  /\ Viem.formatEther (10 ^ 17 + 2 * 10 ^ 17) = "0.3"
  /\ aggregated ["0xa"; "0xb"; "0xc"] "ETH" = Some "0.6000000000000001"
  /\ aggregated ["0xc"; "0xb"; "0xa"] "ETH" = Some "0.6".
Proof. repeat split; vm_compute; reflexivity. Qed.

(* ================================================================== *)
(** * Address case, and the percentages of the valuation *)
(* ================================================================== *)

Lemma ascii_lower_idem c : JS.ascii_lower (JS.ascii_lower c) = JS.ascii_lower c.
Proof. destruct c as [[] [] [] [] [] [] [] []]; reflexivity. Qed.

Lemma toLowerCase_idem a : JS.toLowerCase (JS.toLowerCase a) = JS.toLowerCase a.
Proof. induction a as [|c a IH]; simpl; [|rewrite ascii_lower_idem, IH]; auto. Qed.

Lemma owned_by_nonzero c a ids :
  owned_by c a ids <> 0
  <-> exists i, In i ids /\ Snapshot.ownerOf c i = Some a.
Proof.
  unfold owned_by.
  set (p := fun i => match Snapshot.ownerOf c i with
                     | Some o => String.eqb o a | None => false end).
  assert (Hp : forall i, p i = true <-> Snapshot.ownerOf c i = Some a).
  { intros i. unfold p. destruct (Snapshot.ownerOf c i) as [o|].
    - rewrite String.eqb_eq. split; congruence.
    - split; discriminate. }
  split.
  - intros Hn. destruct (filter p ids) as [|i r] eqn:E; [simpl in Hn; lia|].
    assert (Hi : In i (filter p ids)) by (rewrite E; now left).
    apply filter_In in Hi. exists i. split; [tauto | apply Hp; tauto].
  - intros [i [Hi Ho]]. assert (Hf : In i (filter p ids))
      by (apply filter_In; split; [auto | now apply Hp]).
    destruct (filter p ids); [destruct Hf | simpl; lia].
Qed.

(** The keys of a returned tally are the owner strings the scanned indices
    resolved to, as they were returned. *)
Lemma createSnapshot_keys c startId endId h log a :
  owners_nonempty c ->
  Snapshot.createSnapshot c startId endId = (Returns h, log) ->
  Z.of_nat (List.length (queried_ids log)) <= 2 ^ 53 ->
  (In a (Obj.keys h)
   <-> exists i, In i (queried_ids log) /\ Snapshot.ownerOf c i = Some a).
Proof.
  intros Hne Hrun Hlen.
  destruct (createSnapshot_returns c startId endId h log Hrun)
    as (supply & Hh & Hlog).
  destruct (scan_range_tally c startId endId supply Hne) as [Hl Ht].
  assert (Hids : queried_ids log
                 = index_range (Snapshot.scan_start startId)
                     (Z.to_nat (Snapshot.scan_end endId supply
                                - Snapshot.scan_start startId))).
  { rewrite Hlog, Hl. simpl. apply queried_ids_map. }
  rewrite Hids in *. destruct (Ht Hlen) as (_ & Hget & _).
  rewrite <- Hh in Hget. rewrite <- owned_by_nonzero. specialize (Hget a).
  split.
  - intros Hin Hz. rewrite Hz in Hget. simpl in Hget.
    now apply get_None_keys in Hget.
  - intros Hnz. apply Z.eqb_neq in Hnz. rewrite Hnz in Hget.
    now apply get_Some_keys in Hget.
Qed.

(** C9, as the code has it. [addWallet] stores the address in lower case,
    which is a canonical form: two addresses that differ only in case are
    stored as the same string, in the wallet list and from there in the
    per-wallet results. The holder tally is keyed by the owner strings
    exactly as the ledger client returned them: an address is a key when,
    and only when, a scanned index resolved to that very string. *)
Theorem addWallet_normalizes_tally_does_not :
  (forall t a l,
      Portfolio.wallets (Portfolio.addWallet t a l)
      = (Portfolio.wallets t
         ++ [ {| Portfolio.w_address := JS.toLowerCase a;
                 Portfolio.label := l |} ])%list)
  /\ (forall t a b l, same_entity a b ->
      Portfolio.addWallet t a l = Portfolio.addWallet t b l)
  /\ (forall a, same_entity (JS.toLowerCase a) a)
  /\ (forall node t log,
      map Portfolio.wd_address
        (Portfolio.walletDetails
           (fst (fst (Portfolio.aggregatePortfolio node t log))))
      = map Portfolio.w_address (Portfolio.wallets t))
  /\ (forall c startId endId h log a,
      owners_nonempty c ->
      Snapshot.createSnapshot c startId endId = (Returns h, log) ->
      Z.of_nat (List.length (queried_ids log)) <= 2 ^ 53 ->
      (In a (Obj.keys h)
       <-> exists i, In i (queried_ids log) /\ Snapshot.ownerOf c i = Some a)).
Proof.
  split; [reflexivity|]. split; [|split; [|split]].
  - intros t a b l Hab. unfold Portfolio.addWallet. unfold same_entity in Hab.
    now rewrite Hab.
  - intros a. apply toLowerCase_idem.
  - intros node t log. rewrite aggregatePortfolio_eq. cbv zeta.
    cbn [fst Portfolio.walletDetails].
    destruct (wallets_fold node (Portfolio.tokens t) (Portfolio.wallets t)
                Obj.empty [] log) as (fresh & Hd & Ha & _).
    exact (eq_trans (f_equal (map Portfolio.wd_address) Hd) Ha).
  - apply createSnapshot_keys.
Qed.

Lemma mixed_case_owners : owners_nonempty mixed_case_contract.
Proof.
  intros i a. unfold mixed_case_contract. simpl.
  destruct (i =? 0); [intros [= <-]; discriminate|].
  destruct (i =? 1); [intros [= <-]|]; discriminate.
Qed.

Lemma addWallet_normalizes_tally_does_not_witness :
  Portfolio.addWallet (Portfolio.new_tracker None) "0xAB" "main"
  = Portfolio.addWallet (Portfolio.new_tracker None) "0xab" "main"
  /\ (In "0xab" (Obj.keys [("0xAB", 1); ("0xab", 1)])
      <-> exists i, In i [0; 1]
                    /\ Snapshot.ownerOf mixed_case_contract i = Some "0xab").
Proof.
  split.
  - apply (proj1 (proj2 addWallet_normalizes_tally_does_not)). reflexivity.
  - apply (proj2 (proj2 (proj2 (proj2 addWallet_normalizes_tally_does_not)))
             mixed_case_contract None None [("0xAB", 1); ("0xab", 1)]
             [Snapshot.CallTotalSupply; Snapshot.CallOwnerOf 0;
              Snapshot.CallOwnerOf 1] "0xab" mixed_case_owners eq_refl).
    vm_compute. discriminate.
Defined.

(** C9 as stated fails on the holder tally: the owners of tokens 0 and 1
    differ only in case, and the tally has one entry for each. *)
Lemma tally_is_case_sensitive :
  same_entity "0xAB" "0xab"
  /\ fst (Snapshot.createSnapshot mixed_case_contract None None)
     = Returns [("0xAB", 1); ("0xab", 1)].
Proof. split; reflexivity. Qed.

(** ** Percentages *)

Lemma insert_row_Forall (P : Portfolio.AssetValue -> Prop) x l :
  P x -> Forall P l -> Forall P (Portfolio.insert_row x l).
Proof.
  intros Hx Hl. induction Hl as [|y r Hy Hr IH]; simpl.
  - now constructor.
  - destruct (JS.num_gt _ _); constructor; auto.
Qed.

Lemma sort_rows_Forall (P : Portfolio.AssetValue -> Prop) l :
  Forall P l -> Forall P (Portfolio.sort_rows l).
Proof.
  unfold Portfolio.sort_rows. induction 1; simpl; auto.
  now apply insert_row_Forall.
Qed.

(** Dividing by a total of 0 never gives a numeric percentage. *)
Lemma with_percentage_zero total item :
  is_zero total ->
  no_number (Portfolio.percentage (Portfolio.with_percentage total item)).
Proof.
  unfold Portfolio.with_percentage, no_number. cbn [Portfolio.percentage].
  destruct total as [s| | |]; try contradiction. intros _.
  destruct (JS.parseFloat (Portfolio.value item)) as [[]|[]| |[] m e];
    destruct s; cbn; auto.
Qed.

Lemma calculatePortfolioValue_rows node oracle t log olog :
  exists rows,
    Portfolio.valueBreakdown
      (fst (fst (fst (Portfolio.calculatePortfolioValue node oracle t log olog))))
    = Portfolio.sort_rows
        (map (Portfolio.with_percentage
                (Portfolio.totalValue
                   (fst (fst (fst (Portfolio.calculatePortfolioValue
                                     node oracle t log olog))))))
           rows).
Proof.
  unfold Portfolio.calculatePortfolioValue.
  destruct (match Obj.keys _ with [] => _ | _ :: _ => _ end) as [t1 log1].
  destruct (fold_left _ _ _) as [[[total rows] cache] olog1].
  now exists rows.
Qed.

(** Whenever the total value is 0, no row has a numeric percentage. *)
Lemma zero_total_no_percentage node oracle t log olog :
  let pv := fst (fst (fst (Portfolio.calculatePortfolioValue
                             node oracle t log olog))) in
  is_zero (Portfolio.totalValue pv) ->
  Forall (fun row => no_number (Portfolio.percentage row))
    (Portfolio.valueBreakdown pv).
Proof.
  intros pv Hz. subst pv.
  destruct (calculatePortfolioValue_rows node oracle t log olog) as [rows ->].
  apply sort_rows_Forall. apply Forall_forall. intros row Hin.
  apply in_map_iff in Hin. destruct Hin as [item [<- _]].
  now apply with_percentage_zero.
Qed.

(** C3 on the code. With the oracle out of reach every price is 0, the total
    value is 0, and the percentage of the one row is ["NaN"], not 0. And with
    a total above 0, a wallet holding 0.000001 ether priced 2000.5 has one
    row, whose percentage is ["0.00"], not 100: the percentage is taken from
    the value rounded to cents. *)
Theorem percentage_of_zero_total_is_NaN :
  valued dead_oracle ["0xe"]
  = {| Portfolio.totalValue := JS.num_zero;
       Portfolio.valueBreakdown :=
         [ {| Portfolio.av_symbol := "ETH"; Portfolio.av_balance := "1.000000";
              Portfolio.price := "0.00"; Portfolio.value := "0.00";
              Portfolio.percentage := "NaN" |} ] |}
  /\ JS.num_gt (Portfolio.totalValue (valued steady_oracle ["0xf"])) JS.num_zero
     = true
  /\ Portfolio.valueBreakdown (valued steady_oracle ["0xf"])
     = [ {| Portfolio.av_symbol := "ETH"; Portfolio.av_balance := "0.000001";
            Portfolio.price := "2000.50"; Portfolio.value := "0.00";
            Portfolio.percentage := "0.00" |} ].
Proof. repeat split; vm_compute; reflexivity. Qed.

(* ================================================================== *)
(** * Further properties of the snapshot tool *)
(* ================================================================== *)

Section ScanOrder.
Import JS Snapshot.

Lemma index_range_In i n x :
  In x (index_range i n) <-> i <= x < i + Z.of_nat n.
Proof.
  revert i. induction n as [|n IH]; intros i; cbn [index_range In].
  - lia.
  - rewrite IH. lia.
Qed.


Lemma createSnapshot_scan c startId endId h log :
  createSnapshot c startId endId = (Returns h, log) ->
  h = fst (scan_range c startId endId (supply_or_0 c))
  /\ log = CallTotalSupply :: snd (scan_range c startId endId (supply_or_0 c)).
Proof.
  unfold supply_or_0. destruct (totalSupply c) as [n|] eqn:Hts.
  - destruct (createSnapshot_supply c startId endId n Hts) as [Hf Hs].
    intros E. rewrite E in Hf, Hs. simpl in Hf, Hs. split; congruence.
  - rewrite (createSnapshot_failed_supply c startId endId Hts).
    destruct (negb (given startId) || negb (given endId))%bool eqn:G;
      [discriminate|].
    intros [= <- <-]. apply orb_false_elim in G. destruct G as [_ G].
    destruct endId as [e|]; [|discriminate]. simpl in G.
    unfold scan_range, scan_end, or_default.
    destruct (e =? 0); [discriminate|]. auto.
Qed.
End ScanOrder.



(** X2. A bound of 0 is a missing bound: a start of 0 and no start, and an
    end of 0 and no end, give the same run in every respect. So an end of 0
    does not make the scan empty (it runs to the total supply), and with the
    total supply not available a start of 0 is refused as if none had been
    given. *)
Theorem createSnapshot_zero_bound c startId endId :
  Snapshot.createSnapshot c (Some 0) endId = Snapshot.createSnapshot c None endId
  /\ Snapshot.createSnapshot c startId (Some 0)
     = Snapshot.createSnapshot c startId None
  /\ (Snapshot.totalSupply c = None ->
      fst (Snapshot.createSnapshot c (Some 0) endId)
      = Throws Snapshot.range_error)
  /\ (forall n h log,
      Snapshot.totalSupply c = Some n ->
      Snapshot.createSnapshot c startId (Some 0) = (Returns h, log) ->
      forall i, In i (queried_ids log) <-> Snapshot.scan_start startId <= i < n).
Proof.
  split; [reflexivity|]. split; [reflexivity|]. split.
  - intros Hts. now rewrite (createSnapshot_failed_supply c _ _ Hts).
  - intros n h log Hts Hrun i.
    destruct (createSnapshot_scan c startId (Some 0) h log Hrun) as [_ Hlog].
    unfold supply_or_0 in Hlog. rewrite Hts in Hlog.
    unfold Snapshot.scan_range in Hlog. rewrite scan_log in Hlog.
    rewrite Hlog. simpl. rewrite queried_ids_map, index_range_In.
    unfold Snapshot.scan_end, Snapshot.or_default. simpl. lia.
Qed.

Lemma createSnapshot_zero_bound_witness :
  fst (Snapshot.createSnapshot no_supply_contract (Some 0) (Some 5))
  = Throws Snapshot.range_error
  /\ (In 4 (queried_ids
              (snd (Snapshot.createSnapshot scenario_contract (Some 3) (Some 0))))
      <-> 3 <= 4 < 5).
Proof.
  split.
  - apply (proj1 (proj2 (proj2 (createSnapshot_zero_bound no_supply_contract
                                   None (Some 5))))). reflexivity.
  - apply (proj2 (proj2 (proj2 (createSnapshot_zero_bound scenario_contract
                                   (Some 3) None))) 5 _ _ eq_refl eq_refl).
Defined.

Section TallyOrder.
Import JS Snapshot.

Lemma existsb_eqb_In a (l : list string) :
  existsb (String.eqb a) l = true <-> In a l.
Proof.
  rewrite existsb_exists. split.
  - intros [x [Hx E]]. apply String.eqb_eq in E. now subst.
  - intros H. exists a. split; auto. apply String.eqb_refl.
Qed.

Lemma keys_set (h : NFTSnapshot) a v : Obj.keys (Obj.set a v h) = see (Obj.keys h) a.
Proof.
  unfold see. destruct (existsb (String.eqb a) (Obj.keys h)) eqn:E.
  - apply existsb_eqb_In in E. destruct (Obj.get a h) as [v0|] eqn:G.
    + apply (set_present _ _ _ _ G).
    + apply get_None_keys in G. contradiction.
  - assert (Hn : ~ In a (Obj.keys h)).
    { intros Hin. apply existsb_eqb_In in Hin. congruence. }
    apply get_None_keys in Hn. rewrite (set_absent _ _ _ Hn).
    unfold Obj.keys. now rewrite map_app.
Qed.

Lemma scan_keys c n : forall i h,
  owners_nonempty c ->
  Obj.keys (fst (scan c n i h))
  = fold_left see (resolved_owners c (index_range i n)) (Obj.keys h).
Proof.
  induction n as [|n IH]; intros i h Hne; [reflexivity|].
  rewrite scan_fst_S, (IH _ _ Hne). cbn [index_range].
  unfold resolved_owners. cbn [flat_map]. rewrite fold_left_app.
  f_equal. destruct (ownerOf c i) as [a|] eqn:Ho.
  - assert (Ht : str_truthy a = true)
      by (destruct a; [exfalso; now apply (Hne i "") | reflexivity]).
    rewrite (visit_owner c h i a Ho Ht). cbn [fold_left]. apply keys_set.
  - now rewrite (visit_none c h i Ho).
Qed.

Lemma see_NoDup acc a : NoDup acc -> NoDup (see acc a).
Proof.
  intros Hn. unfold see. destruct (existsb (String.eqb a) acc) eqn:E; auto.
  apply NoDup_app; auto.
  - repeat constructor. simpl. tauto.
  - intros x Hx [<-|[]]. apply existsb_eqb_In in Hx. congruence.
Qed.
End TallyOrder.

Lemma scenario_not_indices : owners_not_indices scenario_contract.
Proof.
  intros i a. unfold scenario_contract. cbn [Snapshot.ownerOf].
  destruct ((i =? 0) || (i =? 2))%bool;
    [intros [= <-]; vm_compute; reflexivity|].
  destruct (i =? 4); [intros [= <-]; vm_compute; reflexivity | discriminate].
Qed.

(** X3. When the owners are addresses (non-empty strings, none of them an
    array index, which an object would list before the others), the keys of
    a returned tally are the owners in the order in which the scan first met
    them: holders are listed by the index of their first token, which is
    also the order [Object.entries] gives them in. *)
Theorem createSnapshot_first_seen c startId endId h log :
  owners_nonempty c ->
  owners_not_indices c ->
  Snapshot.createSnapshot c startId endId = (Returns h, log) ->
  Obj.keys h = first_seen (resolved_owners c (queried_ids log)).
Proof.
  intros Hne _ Hrun.
  destruct (createSnapshot_scan c startId endId h log Hrun) as [Hh Hlog].
  unfold Snapshot.scan_range in Hh, Hlog. rewrite scan_log in Hlog.
  rewrite Hlog, Hh. simpl. rewrite queried_ids_map.
  now rewrite (scan_keys c _ _ _ Hne).
Qed.

Lemma createSnapshot_first_seen_witness :
  Obj.keys [("0xX", 2); ("0xY", 1)]
  = first_seen (resolved_owners scenario_contract [0; 1; 2; 3; 4]).
Proof.
  apply (createSnapshot_first_seen scenario_contract None None
           [("0xX", 2); ("0xY", 1)] _ scenario_owners scenario_not_indices
           eq_refl).
Defined.

Section Eligible.
Import JS Snapshot.

Lemma eligible_filter_keys (s : NFTSnapshot) m :
  Obj.wf s ->
  map fst (filter (fun e => m <=? snd e) s)
  = filter (fun a => m <=? count_of s a) (Obj.keys s).
Proof.
  unfold Obj.wf, Obj.keys, count_of.
  induction s as [|[k n] r IH]; intros Hwf; [reflexivity|].
  inversion Hwf as [|? ? Hk Hr]; subst.
  cbn [map filter fst snd Obj.get]. rewrite String.eqb_refl.
  assert (Hext : filter (fun a => m <=? match Obj.get a r with
                                        | Some c => c | None => 0 end)
                   (map fst r)
                 = filter (fun a => m <=? match (if String.eqb a k then Some n
                                                 else Obj.get a r) with
                                          | Some c => c | None => 0 end)
                     (map fst r)).
  { apply filter_ext_in. intros a Ha.
    destruct (String.eqb a k) eqn:E; auto.
    apply String.eqb_eq in E. subst. contradiction. }
  destruct (m <=? n); cbn [map fst]; rewrite (IH Hr);
    [f_equal|]; exact Hext.
Qed.

End Eligible.

(** X4. [getAirdropEligible] keeps the order of the snapshot: its result is
    the list of the keys with those below the threshold left out. Raising
    the threshold only removes addresses, and a threshold above every count
    leaves none. *)
Theorem getAirdropEligible_order snapshot :
  Obj.wf snapshot ->
  (forall minTokens,
      Snapshot.getAirdropEligible snapshot (Some minTokens)
      = filter (fun a => minTokens <=? count_of snapshot a) (Obj.keys snapshot))
  /\ (forall m m', m <= m' ->
      incl (Snapshot.getAirdropEligible snapshot (Some m'))
           (Snapshot.getAirdropEligible snapshot (Some m)))
  /\ (forall m, Forall (fun v => v < m) (Obj.values snapshot) ->
      Snapshot.getAirdropEligible snapshot (Some m) = []).
Proof.
  intros Hwf. split; [|split].
  - intros m. unfold Snapshot.getAirdropEligible, Obj.entries.
    now apply eligible_filter_keys.
  - intros m m' Hle. unfold Snapshot.getAirdropEligible, Obj.entries.
    intros a Ha. apply in_map_iff in Ha. destruct Ha as [e [<- He]].
    apply filter_In in He. apply in_map. apply filter_In. split; [tauto|].
    destruct He as [_ He]. apply Z.leb_le in He. apply Z.leb_le. lia.
  - intros m Hall. unfold Snapshot.getAirdropEligible, Obj.entries.
    unfold Obj.values in Hall. rewrite Forall_map in Hall.
    induction Hall as [|e r He _ IH]; [reflexivity|]. cbn [filter].
    destruct (m <=? snd e) eqn:E; [apply Z.leb_le in E; lia|]. apply IH.
    now inversion Hwf.
Qed.

Lemma getAirdropEligible_order_witness :
  Snapshot.getAirdropEligible [("0xX", 2); ("0xY", 1); ("0xZ", 5)] (Some 2)
  = ["0xX"; "0xZ"].
Proof.
  assert (Hwf : Obj.wf [("0xX", 2); ("0xY", 1); ("0xZ", 5)]).
  { repeat constructor; simpl; intuition discriminate. }
  apply (proj1 (getAirdropEligible_order _ Hwf) 2).
Defined.

(** X5. [createSnapshot] followed by [getAirdropEligible]: for a threshold
    of at least 1, the eligible addresses are exactly the addresses that own
    at least that many of the scanned tokens. *)
Theorem eligible_after_snapshot c startId endId h log minTokens a :
  owners_nonempty c ->
  Snapshot.createSnapshot c startId endId = (Returns h, log) ->
  Z.of_nat (List.length (queried_ids log)) <= 2 ^ 53 ->
  1 <= minTokens ->
  (In a (Snapshot.getAirdropEligible h (Some minTokens))
   <-> minTokens <= owned_by c a (queried_ids log)).
Proof.
  intros Hne Hrun Hlen Hm.
  destruct (createSnapshot_returns c startId endId h log Hrun)
    as (supply & Hh & Hlog).
  destruct (scan_range_tally c startId endId supply Hne) as [Hl Ht].
  assert (Hids : queried_ids log
                 = index_range (Snapshot.scan_start startId)
                     (Z.to_nat (Snapshot.scan_end endId supply
                                - Snapshot.scan_start startId))).
  { rewrite Hlog, Hl. simpl. apply queried_ids_map. }
  rewrite Hids in *. destruct (Ht Hlen) as ([Hwf _] & Hget & _).
  rewrite <- Hh in Hget, Hwf.
  unfold Snapshot.getAirdropEligible, Obj.entries.
  rewrite (In_filter_keys (fun n => minTokens <=? n)). specialize (Hget a).
  split.
  - intros [n [Hin Hn]]. apply (In_get _ _ _ Hwf) in Hin.
    rewrite Hin in Hget. apply Z.leb_le in Hn.
    destruct (owned_by c a _ =? 0); [discriminate|]. injection Hget as ->. lia.
  - intros Hown. exists (owned_by c a (index_range (Snapshot.scan_start startId)
                     (Z.to_nat (Snapshot.scan_end endId supply
                                - Snapshot.scan_start startId)))).
    split; [|now apply Z.leb_le].
    apply get_In. rewrite Hget.
    destruct (owned_by c a _ =? 0) eqn:E; auto. apply Z.eqb_eq in E. lia.
Qed.

Lemma eligible_after_snapshot_witness :
  In "0xX" (Snapshot.getAirdropEligible [("0xX", 2); ("0xY", 1)] (Some 2))
  <-> 2 <= owned_by scenario_contract "0xX" [0; 1; 2; 3; 4].
Proof.
  apply (eligible_after_snapshot scenario_contract None None
           [("0xX", 2); ("0xY", 1)] _ 2 "0xX" scenario_owners eq_refl).
  - vm_compute. discriminate.
  - lia.
Defined.

Section ScriptFacts.
Import JS Snapshot.

Lemma script_visit c h i :
  owners_nonempty c -> Script.visit c h i = visit c h i.
Proof.
  intros Hne. unfold Script.visit, visit, getTokenOwner.
  destruct (ownerOf c i) as [a|] eqn:Ho; auto.
  destruct a; [exfalso; now apply (Hne i "") | reflexivity].
Qed.

Lemma script_loop c n : forall i h,
  owners_nonempty c -> Script.loop c n i h = scan c n i h.
Proof.
  induction n as [|n IH]; intros i h Hne; [reflexivity|].
  cbn [Script.loop scan]. now rewrite script_visit, IH.
Qed.
End ScriptFacts.

(** X6. The script [getSnapshot] of erc721Snapshot.js and
    [createSnapshot()] called without bounds agree: when the total supply is
    available (and at most 2^53, where the Number counter of the script is
    still exact) they make the same calls and end with the same holders; when
    it is not, the script's promise is rejected and [createSnapshot] throws
    its configuration error, each after that one call. Owners are non-empty
    strings: the script does not test the owner. *)
Theorem getSnapshot_agrees c :
  owners_nonempty c ->
  (forall n, Snapshot.totalSupply c = Some n -> n <= 2 ^ 53 ->
     exists h log,
       Snapshot.createSnapshot c None None = (Returns h, log)
       /\ Script.getSnapshot c = Script.Completed h log)
  /\ (Snapshot.totalSupply c = None ->
      Script.getSnapshot c = Script.Rejected [Snapshot.CallTotalSupply]
      /\ Snapshot.createSnapshot c None None
         = (Throws Snapshot.range_error, [Snapshot.CallTotalSupply])).
Proof.
  intros Hne. split.
  - intros n Hts Hn.
    unfold Script.getSnapshot, Snapshot.createSnapshot, Snapshot.getTotalSupply.
    rewrite Hts. unfold Script.turns.
    replace (n <=? 2 ^ 53 + 1) with true by (symmetry; apply Z.leb_le; lia).
    rewrite Z.min_l by lia. rewrite (script_loop c _ _ _ Hne).
    unfold Snapshot.scan_range, Snapshot.scan_start, Snapshot.scan_end,
      Snapshot.or_default.
    rewrite Z.sub_0_r.
    destruct (Snapshot.scan c (Z.to_nat n) 0 Obj.empty) as [h log].
    now exists h, (Snapshot.CallTotalSupply :: log).
  - intros Hts. unfold Script.getSnapshot. rewrite Hts. split; auto.
    now rewrite (createSnapshot_failed_supply c _ _ Hts).
Qed.

Lemma getSnapshot_agrees_witness :
  Script.getSnapshot scenario_contract
  = Script.Completed [("0xX", 2); ("0xY", 1)]
      (Snapshot.CallTotalSupply :: map Snapshot.CallOwnerOf [0; 1; 2; 3; 4]).
Proof.
  destruct (proj1 (getSnapshot_agrees scenario_contract scenario_owners)
              5 eq_refl) as (h & log & Hc & Hs).
  - vm_compute. discriminate.
  - rewrite Hs. injection Hc as <- <-. reflexivity.
Defined.

Section HolderSort.
Import JS Snapshot.

Lemma insert_holder_perm x l : Permutation (insert_holder x l) (x :: l).
Proof.
  induction l as [|y r IH]; cbn [insert_holder]; auto.
  destruct (0 <? snd y - snd x); auto.
  rewrite IH. apply perm_swap.
Qed.

Lemma sort_holders_perm l : Permutation (sort_holders l) l.
Proof.
  unfold sort_holders. induction l as [|x l IH]; cbn [fold_right]; auto.
  rewrite insert_holder_perm. now constructor.
Qed.

Lemma insert_holder_sorted x l :
  StronglySorted count_ge l -> StronglySorted count_ge (insert_holder x l).
Proof.
  induction 1 as [|y r Hr IH Hy]; cbn [insert_holder].
  - repeat constructor.
  - destruct (0 <? snd y - snd x) eqn:E.
    + constructor; auto. apply Z.ltb_lt in E.
      apply (Permutation_Forall (Permutation_sym (insert_holder_perm x r))).
      constructor; auto. unfold count_ge. lia.
    + apply Z.ltb_ge in E. constructor; [constructor; auto|].
      constructor; [unfold count_ge; lia|].
      eapply Forall_impl; [|exact Hy]. unfold count_ge. intros a Ha. lia.
Qed.

Lemma sort_holders_sorted l : StronglySorted count_ge (sort_holders l).
Proof.
  unfold sort_holders. induction l as [|x l IH]; cbn [fold_right].
  - constructor.
  - now apply insert_holder_sorted.
Qed.

Lemma insert_holder_stable v x l :
  with_count v (insert_holder x l) = with_count v (x :: l).
Proof.
  unfold with_count. induction l as [|y r IH]; cbn [insert_holder]; auto.
  destruct (0 <? snd y - snd x) eqn:E; auto.
  apply Z.ltb_lt in E. cbn [filter] in *. rewrite IH.
  destruct (snd x =? v) eqn:Ex, (snd y =? v) eqn:Ey; auto.
  apply Z.eqb_eq in Ex, Ey. lia.
Qed.

Lemma sort_holders_stable v l : with_count v (sort_holders l) = with_count v l.
Proof.
  unfold sort_holders. induction l as [|x l IH]; cbn [fold_right]; auto.
  rewrite insert_holder_stable. unfold with_count in *. cbn [filter].
  now rewrite IH.
Qed.
End HolderSort.

(** X7. The holders [exportToCSV] (and [displaySnapshot]) lists are those of
    the snapshot, each once, by descending count; holders with the same
    count stay in the order of the snapshot. *)
Theorem sort_holders_spec (snapshot : Snapshot.NFTSnapshot) :
  let sorted := Snapshot.sort_holders (Obj.entries snapshot) in
  Permutation sorted (Obj.entries snapshot)
  /\ StronglySorted count_ge sorted
  /\ (forall v, with_count v sorted = with_count v (Obj.entries snapshot)).
Proof.
  cbv zeta. split; [apply sort_holders_perm|].
  split; [apply sort_holders_sorted | intros v; apply sort_holders_stable].
Qed.


Section CsvFacts.
Import JS Snapshot.

Lemma lacks_app c a b : lacks c (a ++ b) = (lacks c a && lacks c b)%bool.
Proof.
  induction a as [|x a IH]; cbn [append lacks]; auto.
  rewrite IH. now rewrite andb_assoc.
Qed.

Lemma split_on_nonempty c s : split_on c s <> [].
Proof.
  induction s as [|a r IH]; cbn [split_on]; [discriminate|].
  destruct (Ascii.eqb a c); [discriminate|].
  destruct (split_on c r); discriminate.
Qed.

Lemma split_on_lacks c s : lacks c s = true -> split_on c s = [s].
Proof.
  induction s as [|a r IH]; cbn [split_on lacks]; auto.
  intros H. apply andb_prop in H. destruct H as [Ha Hr].
  apply negb_true_iff in Ha. rewrite Ha, (IH Hr). reflexivity.
Qed.

Lemma split_on_app c s r :
  lacks c s = true -> split_on c (s ++ String c r) = s :: split_on c r.
Proof.
  induction s as [|a s IH]; cbn [append split_on lacks].
  - intros _. now rewrite Ascii.eqb_refl.
  - intros H. apply andb_prop in H. destruct H as [Ha Hs].
    apply negb_true_iff in Ha. rewrite Ha, (IH Hs). reflexivity.
Qed.

Lemma split_join rows :
  rows <> [] -> Forall (fun r => lacks lf r = true) rows ->
  split_on lf (join nl rows) = rows.
Proof.
  induction rows as [|r rest IH]; [congruence|]. intros _ Hall.
  inversion Hall as [|? ? Hr Hrest]; subst.
  destruct rest as [|r2 rest].
  - cbn [join]. now apply split_on_lacks.
  - change (join nl (r :: r2 :: rest))
      with (r ++ String lf (join nl (r2 :: rest))).
    rewrite (split_on_app lf r _ Hr), IH; auto. discriminate.
Qed.

Lemma lacks_uint c d :
  is_digit c = false -> lacks c (NilEmpty.string_of_uint d) = true.
Proof.
  intros Hc. induction d; cbn [NilEmpty.string_of_uint lacks]; auto;
    rewrite IHd, andb_true_r; apply negb_true_iff;
    (destruct (Ascii.eqb _ c) eqn:E; [apply Ascii.eqb_eq in E; subst c;
                                      discriminate Hc | reflexivity]).
Qed.

Lemma lacks_Z_to_string c z :
  is_digit c = false -> Ascii.eqb "-" c = false ->
  lacks c (Z_to_string z) = true.
Proof.
  intros Hc Hm. unfold Z_to_string, NilZero.string_of_int.
  assert (Hu : forall d, lacks c (NilZero.string_of_uint d) = true).
  { intros d. unfold NilZero.string_of_uint.
    pose proof (lacks_uint c d Hc) as H.
    destruct d; auto. cbn [lacks]. rewrite andb_true_r. apply negb_true_iff.
    destruct (Ascii.eqb "0" c) eqn:E; auto.
    apply Ascii.eqb_eq in E. subst c. discriminate Hc. }
  destruct (Z.to_int z) as [d|d]; auto.
  cbn [lacks]. now rewrite Hm, Hu.
Qed.

Lemma Z_of_to_string z : Z_of_string (Z_to_string z) = Some z.
Proof.
  unfold Z_of_string, Z_to_string.
  rewrite NilZero.isi.
  - cbn [option_map]. now rewrite DecimalZ.of_to.
  - destruct z; cbn; try discriminate.
    intros [= H]. now apply (Unsigned.to_uint_nonnil p).
  - destruct z; cbn; try discriminate.
    intros [= H]. now apply (Unsigned.to_uint_nonnil p).
Qed.

(** The row of a holder, as [exportToCSV] writes it. *)
Lemma read_row_written a n :
  lacks "," a = true ->
  read_row (a ++ "," ++ Z_to_string n) = Some (a, n).
Proof.
  intros Ha. unfold read_row.
  change (a ++ "," ++ Z_to_string n) with (a ++ String "," (Z_to_string n)).
  rewrite (split_on_app "," a _ Ha).
  rewrite split_on_lacks by (apply lacks_Z_to_string; reflexivity).
  now rewrite Z_of_to_string.
Qed.

Lemma read_rows_written (l : list (Address * Z)) :
  Forall (fun e => csv_safe (fst e)) l ->
  read_rows (map (fun e => fst e ++ "," ++ Z_to_string (snd e)) l) = Some l.
Proof.
  induction 1 as [|[a n] l [Ha _] _ IH]; [reflexivity|].
  cbn [map read_rows fst snd]. now rewrite (read_row_written a n Ha), IH.
Qed.

Lemma rows_not_blank {A} (r : string) (rest : list string) (x : option (list A)) :
  r <> "" ->
  match r :: rest with
  | [EmptyString] => Some []
  | _ => x
  end = x.
Proof. destruct r; [congruence | reflexivity]. Qed.

Lemma row_lacks_lf (e : Address * Z) :
  csv_safe (fst e) -> lacks lf (fst e ++ "," ++ Z_to_string (snd e)) = true.
Proof.
  intros [_ Hl]. rewrite !lacks_app, Hl.
  rewrite lacks_Z_to_string by reflexivity. reflexivity.
Qed.
End CsvFacts.

(** X8. A CSV export can be read back: when the counts are integers a
    Number holds exactly and no address holds a comma or a line feed,
    splitting the returned string into lines and each row at its
    comma gives back the holders of the snapshot with their counts, in the
    order of the export (descending count). For an empty snapshot the export
    is the header line followed by an empty line. The file written, when one
    is, holds that same string. *)
Theorem exportToCSV_read_back fs (snapshot : Snapshot.NFTSnapshot) filename :
  counts_exact snapshot ->
  Forall (fun e => csv_safe (fst e)) (Obj.entries snapshot) ->
  read_csv (fst (Snapshot.exportToCSV fs snapshot filename))
  = Some (Snapshot.sort_holders (Obj.entries snapshot))
  /\ (forall f content,
      In (f, content) (snd (Snapshot.exportToCSV fs snapshot filename)) ->
      read_csv content = Some (Snapshot.sort_holders (Obj.entries snapshot))).
Proof.
  intros _ Hsafe.
  assert (Hs : Forall (fun e => csv_safe (fst e))
                 (Snapshot.sort_holders (Obj.entries snapshot))).
  { apply (Permutation_Forall
             (Permutation_sym (sort_holders_perm (Obj.entries snapshot)))).
    exact Hsafe. }
  assert (Hread : read_csv (fst (Snapshot.exportToCSV fs snapshot filename))
                  = Some (Snapshot.sort_holders (Obj.entries snapshot))).
  { unfold Snapshot.exportToCSV. cbn [fst].
    set (sorted := Snapshot.sort_holders (Obj.entries snapshot)) in *.
    set (rows := map (fun e => fst e ++ "," ++ JS.Z_to_string (snd e)) sorted).
    unfold read_csv.
    change (("Address,Token Count" ++ Snapshot.nl) ++ Snapshot.join Snapshot.nl rows)
      with ("Address,Token Count" ++ String lf (Snapshot.join Snapshot.nl rows)).
    rewrite (split_on_app lf "Address,Token Count") by reflexivity.
    destruct sorted as [|e sorted'] eqn:Es.
    - reflexivity.
    - rewrite split_join.
      + rewrite String.eqb_refl.
        pose proof (read_rows_written (e :: sorted') Hs) as Hrr.
        refine (eq_trans (rows_not_blank
                            (fst e ++ "," ++ JS.Z_to_string (snd e)) _ _ _) Hrr).
        destruct (fst e); discriminate.
      + unfold rows. discriminate.
      + unfold rows. rewrite Forall_map.
        eapply Forall_impl; [|exact Hs]. intros x Hx. now apply row_lacks_lf. }
  split; [exact Hread|].
  intros f content Hin. unfold Snapshot.exportToCSV in Hin. cbn [snd] in Hin.
  destruct filename as [f0|]; [|destruct Hin].
  destruct (JS.str_truthy f0 && fs f0)%bool; [|destruct Hin].
  destruct Hin as [[= <- <-]|[]]. exact Hread.
Qed.

Lemma exportToCSV_read_back_witness :
  read_csv ("Address,Token Count" ++ Snapshot.nl ++ "0xX,2" ++ Snapshot.nl ++ "0xY,1")
  = Some [("0xX", 2); ("0xY", 1)].
Proof.
  apply (proj1 (exportToCSV_read_back (fun _ => true) [("0xY", 1); ("0xX", 2)]
                  (Some "out.csv")
                  ltac:(repeat constructor; vm_compute; discriminate)
                  ltac:(repeat constructor))).
Defined.

(* ================================================================== *)
(** * Further properties of the portfolio tracker *)
(* ================================================================== *)

Section RegistryFacts.
Import JS Portfolio.
Context {V : Type}.

Lemma keys_set_see (o : Obj.t V) a v : Obj.keys (Obj.set a v o) = see (Obj.keys o) a.
Proof.
  unfold see. destruct (existsb (String.eqb a) (Obj.keys o)) eqn:E.
  - apply existsb_eqb_In in E. destruct (Obj.get a o) as [v0|] eqn:G.
    + apply (set_present _ _ _ _ G).
    + apply get_None_keys in G. contradiction.
  - assert (Hn : ~ In a (Obj.keys o)).
    { intros Hin. apply existsb_eqb_In in Hin. congruence. }
    apply get_None_keys in Hn. rewrite (set_absent _ _ _ Hn).
    unfold Obj.keys. now rewrite map_app.
Qed.

(** [{ ...o, ...l }]: what the spread of [l] over [o] holds. *)
Lemma spread_get (l : list (string * V)) : forall (o : Obj.t V) k,
  NoDup (map fst l) ->
  Obj.get k (fold_left (fun o e => Obj.set (fst e) (snd e) o) l o)
  = match Obj.get k l with Some v => Some v | None => Obj.get k o end.
Proof.
  induction l as [|[k0 v0] r IH]; intros o k Hnd; [reflexivity|].
  inversion Hnd as [|? ? Hk Hr]; subst.
  cbn [fold_left fst snd Obj.get]. rewrite (IH _ k Hr).
  destruct (String.eqb k k0) eqn:E.
  - apply String.eqb_eq in E. subst k0.
    apply get_None_keys in Hk. rewrite Hk. apply get_set_eq.
  - apply String.eqb_neq in E. rewrite get_set_ne by congruence. reflexivity.
Qed.

Lemma spread_wf (l : list (string * V)) : forall (o : Obj.t V),
  Obj.wf o -> Obj.wf (fold_left (fun o e => Obj.set (fst e) (snd e) o) l o).
Proof.
  induction l as [|e r IH]; intros o Ho; cbn [fold_left]; auto.
  apply IH. now apply wf_set.
Qed.

Lemma spread_keys (l : list (string * V)) : forall (o : Obj.t V),
  Obj.keys (fold_left (fun o e => Obj.set (fst e) (snd e) o) l o)
  = fold_left see (map fst l) (Obj.keys o).
Proof.
  induction l as [|e r IH]; intros o; cbn [fold_left map]; auto.
  now rewrite IH, keys_set_see.
Qed.
End RegistryFacts.

Lemma see_all (l : list string) : forall acc,
  NoDup l ->
  fold_left see l acc
  = (acc ++ filter (fun k => negb (existsb (String.eqb k) acc)) l)%list.
Proof.
  induction l as [|a r IH]; intros acc Hnd; cbn [fold_left filter].
  - now rewrite app_nil_r.
  - inversion Hnd as [|? ? Ha Hr]; subst. rewrite (IH _ Hr). unfold see.
    destruct (existsb (String.eqb a) acc) eqn:E; cbn [negb]; auto.
    rewrite <- app_assoc. cbn [app]. f_equal. f_equal.
    apply filter_ext_in. intros k Hk. rewrite existsb_app. cbn [existsb].
    destruct (String.eqb k a) eqn:Ek.
    + apply String.eqb_eq in Ek. subst. contradiction.
    + now rewrite !orb_false_r.
Qed.

(** X9. The registry of a tracker built with custom tokens holds, for every
    symbol, the custom token when there is one and the default token
    otherwise; it has no symbol twice; and, when no custom symbol is an
    array index (which an object would list before the others), its order,
    which is the order tokens are queried in, is the default symbols in
    their order (a custom token that replaces a default keeps the default's
    place) followed by the new custom symbols in theirs. *)
Theorem custom_tokens_override (custom : Obj.t Portfolio.TokenConfig) :
  Obj.wf custom ->
  let toks := Portfolio.tokens (Portfolio.new_tracker (Some custom)) in
  (forall k, Obj.get k toks
             = match Obj.get k custom with
               | Some token => Some token
               | None => Obj.get k Portfolio.DEFAULT_TOKENS
               end)
  /\ Obj.wf toks
  /\ (Forall (fun k => array_index k = false) (Obj.keys custom) ->
      Obj.keys toks
      = (Obj.keys Portfolio.DEFAULT_TOKENS
         ++ filter (fun k => negb (existsb (String.eqb k)
                                     (Obj.keys Portfolio.DEFAULT_TOKENS)))
              (Obj.keys custom))%list).
Proof.
  intros Hwf toks. subst toks.
  unfold Portfolio.new_tracker, Portfolio.merge_tokens, Obj.entries.
  cbn [Portfolio.tokens]. split; [|split].
  - intros k. now apply spread_get.
  - apply spread_wf, DEFAULT_TOKENS_wf.
  - intros _. rewrite spread_keys. now apply see_all.
Qed.

Lemma custom_tokens_override_witness :
  Obj.keys (Portfolio.tokens (Portfolio.new_tracker (Some
     [ ("DAI", {| Portfolio.address := Some "0x6B17"; Portfolio.decimals := 18;
                  Portfolio.symbol := "DAI" |});
       ("USDC", {| Portfolio.address := Some "0xA0b8"; Portfolio.decimals := 6;
                   Portfolio.symbol := "USDC" |}) ])))
  = ["ETH"; "USDC"; "USDT"; "WETH"; "UNI"; "LINK"; "AAVE"; "COMP"; "DAI"].
Proof.
  refine (eq_trans (proj2 (proj2 (custom_tokens_override _ _)) _) _).
  - repeat constructor; simpl; intuition discriminate.
  - repeat (constructor; [vm_compute; reflexivity|]). constructor.
  - reflexivity.
Defined.

Section WalletListFacts.
Import JS Portfolio.

Lemma add_wallets_state ws : forall t,
  wallets (add_wallets t ws) = (wallets t ++ map wallet_of ws)%list
  /\ tokens (add_wallets t ws) = tokens t
  /\ priceCache (add_wallets t ws) = priceCache t
  /\ portfolioData (add_wallets t ws) = portfolioData t.
Proof.
  unfold add_wallets.
  induction ws as [|e ws IH]; intros t; cbn [fold_left map].
  - now rewrite app_nil_r.
  - destruct (IH (addWallet t (fst e) (snd e))) as (Hw & Ht & Hc & Hp).
    rewrite Hw, Ht, Hc, Hp. cbn [addWallet wallets tokens priceCache portfolioData].
    rewrite <- app_assoc. auto.
Qed.

Lemma aggregate_details node t log :
  map wd_address (walletDetails (fst (fst (aggregatePortfolio node t log))))
  = map w_address (wallets t)
  /\ map wd_label (walletDetails (fst (fst (aggregatePortfolio node t log))))
     = map label (wallets t).
Proof.
  rewrite aggregatePortfolio_eq. cbv zeta. cbn [fst walletDetails].
  destruct (wallets_fold node (tokens t) (wallets t) Obj.empty [] log)
    as (fresh & Hd & Ha & Hl & _).
  split.
  - exact (eq_trans (f_equal (map wd_address) Hd) Ha).
  - exact (eq_trans (f_equal (map wd_label) Hd) Hl).
Qed.
End WalletListFacts.

(** X10. Wallets are kept in the order they are added, with their labels
    and with their addresses in lower case; nothing is merged or dropped, so
    an address added twice is there twice. [addWallet] touches nothing else
    of the tracker, and the per-wallet results of an aggregation follow the
    same order. *)
Theorem add_wallets_order node t ws log :
  let t' := add_wallets t ws in
  Portfolio.wallets t' = (Portfolio.wallets t ++ map wallet_of ws)%list
  /\ Portfolio.tokens t' = Portfolio.tokens t
  /\ Portfolio.priceCache t' = Portfolio.priceCache t
  /\ Portfolio.portfolioData t' = Portfolio.portfolioData t
  /\ map Portfolio.wd_address
       (Portfolio.walletDetails
          (fst (fst (Portfolio.aggregatePortfolio node t' log))))
     = (map Portfolio.w_address (Portfolio.wallets t)
        ++ map (fun e => JS.toLowerCase (fst e)) ws)%list
  /\ map Portfolio.wd_label
       (Portfolio.walletDetails
          (fst (fst (Portfolio.aggregatePortfolio node t' log))))
     = (map Portfolio.label (Portfolio.wallets t) ++ map snd ws)%list.
Proof.
  cbv zeta. destruct (add_wallets_state ws t) as (Hw & Ht & Hc & Hp).
  destruct (aggregate_details node (add_wallets t ws) log) as [Ha Hl].
  repeat split; auto.
  - rewrite Ha, Hw, map_app, map_map. reflexivity.
  - rewrite Hl, Hw, map_app, map_map. reflexivity.
Qed.

Section StationaryFacts.
Import JS Viem Portfolio.
Variable node : Node.
Hypothesis Hst : stationary node.

Lemma token_fold_stationary w (l : list (string * TokenConfig)) :
  forall bals log1 log2,
    fst (fold_left (token_step node w) l (bals, log1))
    = fst (fold_left (token_step node w) l (bals, log2)).
Proof.
  induction l as [|[k tok] l IH]; intros bals log1 log2; [reflexivity|].
  cbn [fold_left]. rewrite !token_step_cases.
  destruct (has_address tok); cbv zeta; [|apply IH].
  rewrite (Hst (List.length log1) (List.length log2)). apply IH.
Qed.

Lemma balances_stationary toks w log1 log2 :
  fst (getWalletBalances node toks log1 w)
  = fst (getWalletBalances node toks log2 w).
Proof.
  rewrite !getWalletBalances_fold. unfold native_start.
  rewrite (Hst (List.length log1) (List.length log2)).
  apply token_fold_stationary.
Qed.

Lemma wallets_fold_stationary toks (ws : list WalletConfig) :
  forall agg details log1 log2,
    fst (fold_left (wallet_step node toks) ws (agg, details, log1))
    = fst (fold_left (wallet_step node toks) ws (agg, details, log2)).
Proof.
  induction ws as [|wl ws IH]; intros agg details log1 log2; [reflexivity|].
  cbn [fold_left]. rewrite !wallet_step_eq.
  rewrite (balances_stationary toks (w_address wl) log1 log2). apply IH.
Qed.
End StationaryFacts.

(** X11. On a node whose replies do not change during the run,
    [aggregatePortfolio] is idempotent: called again on the tracker it
    returned, it returns the same portfolio and the same tracker; the
    previous result is replaced, not merged into, and the same queries are
    made once more. *)
Theorem aggregatePortfolio_again node t log :
  stationary node ->
  let r1 := Portfolio.aggregatePortfolio node t log in
  let r2 := Portfolio.aggregatePortfolio node (snd (fst r1)) (snd r1) in
  fst r2 = fst r1
  /\ snd r2
     = (snd r1 ++ queries_of (Portfolio.tokens t) (Portfolio.wallets t))%list.
Proof.
  intros Hst. cbv zeta.
  assert (Hlog : forall t0 log0,
            snd (Portfolio.aggregatePortfolio node t0 log0)
            = (log0 ++ queries_of (Portfolio.tokens t0) (Portfolio.wallets t0))%list).
  { intros t0 log0. rewrite aggregatePortfolio_eq. cbv zeta. cbn [snd].
    destruct (wallets_fold node (Portfolio.tokens t0) (Portfolio.wallets t0)
                Obj.empty [] log0) as (fresh & _ & _ & _ & _ & H). exact H. }
  split; [|rewrite Hlog; rewrite aggregatePortfolio_eq; reflexivity].
  rewrite (aggregatePortfolio_eq node (snd (fst _))).
  rewrite (aggregatePortfolio_eq node t log). cbv zeta.
  cbn [fst snd Portfolio.tokens Portfolio.wallets Portfolio.set_portfolioData].
  rewrite (wallets_fold_stationary node Hst (Portfolio.tokens t)
             (Portfolio.wallets t) Obj.empty [] _ log).
  reflexivity.
Qed.

Lemma demo_node_stationary : stationary demo_node.
Proof. intros n m q. reflexivity. Qed.

Lemma aggregatePortfolio_again_witness :
  let r1 := Portfolio.aggregatePortfolio demo_node (tracker_of ["0xa"]) [] in
  fst (Portfolio.aggregatePortfolio demo_node (snd (fst r1)) (snd r1)) = fst r1.
Proof.
  apply (proj1 (aggregatePortfolio_again demo_node (tracker_of ["0xa"]) []
                  demo_node_stationary)).
Defined.

Section ValuationFacts.
Import JS Viem Portfolio.

Lemma value_step_eq oracle total rows cache olog sym data :
  value_step oracle (total, rows, cache, olog) (sym, data)
  = let r := getTokenPrice oracle cache olog sym in
    (num_add total (num_mul (parseFloat (balance data)) (fst (fst r))),
     (rows ++ [row_of sym data (fst (fst r))])%list,
     snd (fst r), snd r).
Proof.
  unfold value_step, row_of.
  now destruct (getTokenPrice oracle cache olog sym) as [[p cache'] olog'].
Qed.

Lemma calculatePortfolioValue_eq node oracle t log olog :
  calculatePortfolioValue node oracle t log olog
  = let t1 := fst (prepared node t log) in
    let r := fold_left (value_step oracle)
               (Obj.entries (aggregatedBalances (portfolioData t1)))
               (num_zero, [], priceCache t1, olog) in
    ({| totalValue := fst (fst (fst r));
        valueBreakdown :=
          sort_rows (map (with_percentage (fst (fst (fst r)))) (snd (fst (fst r)))) |},
     set_priceCache t1 (snd (fst r)), snd (prepared node t log), snd r).
Proof.
  unfold calculatePortfolioValue, prepared.
  destruct (Obj.keys (aggregatedBalances (portfolioData t))).
  - destruct (aggregatePortfolio node t log) as [[pd t'] log']. cbn [fst snd].
    now destruct (fold_left _ _ _) as [[[total rows] cache] olog1].
  - cbn [fst snd].
    now destruct (fold_left _ _ _) as [[[total rows] cache] olog1].
Qed.

Lemma prepared_cache node t log :
  priceCache (fst (prepared node t log)) = priceCache t.
Proof.
  unfold prepared. destruct (Obj.keys _); auto.
  rewrite aggregatePortfolio_eq. reflexivity.
Qed.

Lemma value_fold_symbols oracle (l : list (string * TokenBalance)) :
  forall total rows cache olog,
    map av_symbol
      (snd (fst (fst (fold_left (value_step oracle) l (total, rows, cache, olog)))))
    = (map av_symbol rows ++ map fst l)%list.
Proof.
  induction l as [|[sym data] l IH]; intros total rows cache olog.
  - cbn. now rewrite app_nil_r.
  - cbn [fold_left]. rewrite value_step_eq. cbv zeta. rewrite IH.
    rewrite map_app. cbn [map av_symbol row_of fst]. now rewrite <- app_assoc.
Qed.

Lemma insert_row_perm x l : Permutation (insert_row x l) (x :: l).
Proof.
  induction l as [|y r IH]; cbn [insert_row]; auto.
  destruct (num_gt _ _); auto. rewrite IH. apply perm_swap.
Qed.

Lemma sort_rows_perm l : Permutation (sort_rows l) l.
Proof.
  unfold sort_rows. induction l as [|x l IH]; cbn [fold_right]; auto.
  rewrite insert_row_perm. now constructor.
Qed.

Lemma cache_hit_frame oracle cache olog sym s :
  s <> sym ->
  cache_hit (snd (fst (getTokenPrice oracle cache olog sym))) s = cache_hit cache s.
Proof.
  intros Hne. apply cache_hit_get.
  apply (proj1 (getTokenPrice_frame oracle cache olog s sym
                  (fun E => Hne (eq_sym E)))).
Qed.

Lemma getTokenPrice_log oracle cache olog sym :
  snd (getTokenPrice oracle cache olog sym)
  = match cache_hit cache sym with
    | Some _ => olog
    | None => (olog ++ [getCoingeckoId sym])%list
    end.
Proof.
  destruct (cache_hit cache sym) as [p|] eqn:E.
  - now rewrite (proj1 (getTokenPrice_hit oracle cache olog sym p E)).
  - rewrite (getTokenPrice_miss oracle cache olog sym E). cbv zeta.
    destruct (oracle _ _) as [|[|] [|usd]]; reflexivity.
Qed.

Lemma value_fold_log oracle (l : list (string * TokenBalance)) :
  forall total rows cache olog,
    NoDup (map fst l) ->
    snd (fold_left (value_step oracle) l (total, rows, cache, olog))
    = (olog ++ map getCoingeckoId (unpriced cache (map fst l)))%list.
Proof.
  induction l as [|[sym data] l IH]; intros total rows cache olog Hnd.
  - cbn. now rewrite app_nil_r.
  - inversion Hnd as [|? ? Hs Hl]; subst.
    cbn [fold_left]. rewrite value_step_eq. cbv zeta. rewrite (IH _ _ _ _ Hl).
    rewrite getTokenPrice_log. unfold unpriced. cbn [map fst filter].
    assert (Hf : filter (fun s => match cache_hit
                              (snd (fst (getTokenPrice oracle cache olog sym))) s with
                                  | Some _ => false | None => true end) (map fst l)
                 = filter (fun s => match cache_hit cache s with
                                    | Some _ => false | None => true end)
                     (map fst l)).
    { apply filter_ext_in. intros s Hin. rewrite cache_hit_frame; auto.
      intros ->. contradiction. }
    rewrite Hf. destruct (cache_hit cache sym); [reflexivity|].
    cbn [map]. now rewrite <- app_assoc.
Qed.

(** With a usable price cached for every symbol, the loop asks the oracle
    nothing and changes nothing but the rows and the total. *)
Lemma value_fold_warm oracle oracle' (l : list (string * TokenBalance)) :
  forall total rows cache olog,
    (forall s, In s (map fst l) -> cache_hit cache s <> None) ->
    fold_left (value_step oracle) l (total, rows, cache, olog)
    = fold_left (value_step oracle') l (total, rows, cache, olog)
    /\ snd (fst (fold_left (value_step oracle) l (total, rows, cache, olog))) = cache
    /\ snd (fold_left (value_step oracle) l (total, rows, cache, olog)) = olog.
Proof.
  induction l as [|[sym data] l IH]; intros total rows cache olog Hall.
  - cbn. auto.
  - cbn [fold_left]. rewrite !value_step_eq. cbv zeta.
    destruct (cache_hit cache sym) as [p|] eqn:E;
      [|exfalso; apply (Hall sym); [now left | exact E]].
    rewrite (proj1 (getTokenPrice_hit oracle cache olog sym p E)).
    rewrite (proj1 (getTokenPrice_hit oracle' cache olog sym p E)).
    cbn [fst snd]. apply IH. intros s Hs. apply Hall. now right.
Qed.

(** With a usable price cached for every symbol, the total and the rows
    depend neither on the oracle nor on what was asked before. *)
Lemma value_fold_warm_rows oracle oracle' (l : list (string * TokenBalance)) :
  forall total rows cache olog olog',
    (forall s, In s (map fst l) -> cache_hit cache s <> None) ->
    fst (fst (fold_left (value_step oracle) l (total, rows, cache, olog)))
    = fst (fst (fold_left (value_step oracle') l (total, rows, cache, olog'))).
Proof.
  induction l as [|[sym data] l IH]; intros total rows cache olog olog' Hall.
  - reflexivity.
  - cbn [fold_left]. rewrite !value_step_eq. cbv zeta.
    destruct (cache_hit cache sym) as [p|] eqn:E;
      [|exfalso; apply (Hall sym); [now left | exact E]].
    rewrite (proj1 (getTokenPrice_hit oracle cache olog sym p E)).
    rewrite (proj1 (getTokenPrice_hit oracle' cache olog' sym p E)).
    cbn [fst snd]. apply IH. intros s Hs. apply Hall. now right.
Qed.

(** A lookup that fails returns 0 and gives no symbol a usable price. *)
Lemma getTokenPrice_failed oracle cache olog sym :
  failed_lookup (oracle (List.length olog) (getCoingeckoId sym)) = true ->
  cache_hit cache sym = None ->
  fst (fst (getTokenPrice oracle cache olog sym)) = num_zero
  /\ forall s, cache_hit cache s = None ->
               cache_hit (snd (fst (getTokenPrice oracle cache olog sym))) s = None.
Proof.
  intros Hf Hm. rewrite (getTokenPrice_miss oracle cache olog sym Hm). cbv zeta.
  destruct (oracle _ _) as [|[|] [|[usd|]]]; try discriminate Hf;
    cbn [fst snd]; (split; [reflexivity|]); try (intros s Hs; exact Hs).
  intros s Hs. cbn [usd_or_0].
  destruct (String.eqb_spec sym s) as [->|Hne].
  - apply cache_hit_zero.
  - rewrite (cache_hit_get cache); [exact Hs|]. now apply get_set_ne.
Qed.

Lemma mul_zero_finite x : is_finite x -> is_zero (num_mul x num_zero).
Proof. destruct x as [[]|[]| |[] m e]; simpl; intros H; try exact I; destruct H. Qed.

Lemma add_zero_zero x y : is_zero x -> is_zero y -> is_zero (num_add x y).
Proof.
  destruct x as [[]| | |]; try contradiction;
    destruct y as [[]| | |]; try contradiction; intros _ _; exact I.
Qed.

Lemma toFixed_zero x : is_zero x -> toFixed x 2 = "0.00".
Proof. destruct x as [[]| | |]; try contradiction; intros _; reflexivity. Qed.

(** When every lookup fails, the loop adds up zeros. *)
Lemma value_fold_dead oracle (l : list (string * TokenBalance)) :
  (forall n id, failed_lookup (oracle n id) = true) ->
  forall total rows cache olog,
    (forall s, In s (map fst l) -> cache_hit cache s = None) ->
    Forall (fun tb => is_finite (parseFloat (balance tb))) (map snd l) ->
    is_zero total -> Forall dead_row rows ->
    is_zero (fst (fst (fst (fold_left (value_step oracle) l
                              (total, rows, cache, olog)))))
    /\ Forall dead_row
         (snd (fst (fst (fold_left (value_step oracle) l
                           (total, rows, cache, olog))))).
Proof.
  intros Hdead.
  induction l as [|[sym data] l IH]; intros total rows cache olog Hm Hfin Hz Hr.
  - cbn. auto.
  - inversion Hfin as [|? ? Hd Hl]; subst.
    cbn [fold_left]. rewrite value_step_eq. cbv zeta.
    destruct (getTokenPrice_failed oracle cache olog sym (Hdead _ _)
                (Hm sym (or_introl eq_refl))) as [Hp Hc].
    rewrite Hp. apply IH.
    + intros s Hs. apply Hc. apply Hm. now right.
    + exact Hl.
    + apply add_zero_zero; [exact Hz | now apply mul_zero_finite].
    + apply Forall_app. split; [exact Hr|]. constructor; [|constructor].
      split; cbn [row_of price value].
      * reflexivity.
      * apply toFixed_zero. now apply mul_zero_finite.
Qed.

Lemma dead_row_percentage total item :
  is_zero total -> dead_row item ->
  dead_row (with_percentage total item)
  /\ percentage (with_percentage total item) = "NaN".
Proof.
  intros Hz [Hp Hv]. unfold with_percentage, dead_row.
  cbn [price value percentage]. rewrite Hv.
  split; [split; [exact Hp | reflexivity]|].
  destruct total as [[]| | |]; try contradiction; vm_compute; reflexivity.
Qed.
End ValuationFacts.

(** X12. [calculatePortfolioValue] asks the ledger only when the tracker
    holds no aggregate yet: it then aggregates first, making every balance
    query. When an aggregate is stored it values that aggregate as it is and
    makes no balance query, whatever wallets were added since. It never
    changes the wallets or the registry. *)
Theorem valuation_reuses_aggregate node oracle t log olog :
  let r := Portfolio.calculatePortfolioValue node oracle t log olog in
  let t' := snd (fst (fst r)) in
  let log' := snd (fst r) in
  (Obj.keys (Portfolio.aggregatedBalances (Portfolio.portfolioData t)) <> [] ->
   log' = log /\ Portfolio.portfolioData t' = Portfolio.portfolioData t)
  /\ (Obj.keys (Portfolio.aggregatedBalances (Portfolio.portfolioData t)) = [] ->
      log' = (log ++ queries_of (Portfolio.tokens t) (Portfolio.wallets t))%list
      /\ Portfolio.portfolioData t'
         = fst (fst (Portfolio.aggregatePortfolio node t log)))
  /\ Portfolio.wallets t' = Portfolio.wallets t
  /\ Portfolio.tokens t' = Portfolio.tokens t.
Proof.
  cbv zeta. rewrite calculatePortfolioValue_eq. cbv zeta. cbn [fst snd].
  unfold prepared.
  destruct (Obj.keys (Portfolio.aggregatedBalances (Portfolio.portfolioData t)))
    as [|k ks] eqn:Ek.
  - split; [congruence|]. cbn [fst snd].
    rewrite (aggregatePortfolio_eq node t log). cbv zeta. cbn [fst snd].
    split; [|split; reflexivity]. intros _. split; [|reflexivity].
    destruct (wallets_fold node (Portfolio.tokens t) (Portfolio.wallets t)
                Obj.empty [] log) as (fresh & _ & _ & _ & _ & H). exact H.
  - cbn [fst snd]. split; [intros _; split; reflexivity|].
    split; [discriminate|]. split; reflexivity.
Qed.

Lemma valuation_reuses_aggregate_witness :
  snd (fst (Portfolio.calculatePortfolioValue demo_node dead_oracle
              (Portfolio.addWallet warm_tracker "0xa" "") [] []))
  = [].
Proof.
  apply (proj1 (valuation_reuses_aggregate demo_node dead_oracle
                  (Portfolio.addWallet warm_tracker "0xa" "") [] [])).
  vm_compute. discriminate.
Defined.

(** X13. A valuation has exactly one row for each symbol of the aggregate;
    sorting only reorders them. *)
Theorem valuation_rows node oracle t log olog :
  let r := Portfolio.calculatePortfolioValue node oracle t log olog in
  Permutation
    (map Portfolio.av_symbol (Portfolio.valueBreakdown (fst (fst (fst r)))))
    (Obj.keys (Portfolio.aggregatedBalances
                 (Portfolio.portfolioData (snd (fst (fst r)))))).
Proof.
  cbv zeta. rewrite calculatePortfolioValue_eq. cbv zeta.
  cbn [fst snd Portfolio.valueBreakdown Portfolio.set_priceCache
       Portfolio.portfolioData].
  rewrite (Permutation_map Portfolio.av_symbol (sort_rows_perm _)).
  rewrite map_map.
  change (fun x => Portfolio.av_symbol (Portfolio.with_percentage _ x))
    with Portfolio.av_symbol.
  rewrite value_fold_symbols. reflexivity.
Qed.

(** X14. During a valuation the oracle is asked once for each symbol of the
    aggregate that has no usable price in the cache, in the order of the
    aggregate, and for no other: never twice for a symbol, never for a symbol
    whose price is cached. *)
Theorem valuation_requests node oracle t log olog :
  let r := Portfolio.calculatePortfolioValue node oracle t log olog in
  let agg := Portfolio.aggregatedBalances
               (Portfolio.portfolioData (snd (fst (fst r)))) in
  Obj.wf agg ->
  snd r
  = (olog ++ map Portfolio.getCoingeckoId
               (unpriced (Portfolio.priceCache t) (Obj.keys agg)))%list.
Proof.
  cbv zeta. rewrite calculatePortfolioValue_eq. cbv zeta.
  cbn [fst snd Portfolio.set_priceCache Portfolio.portfolioData].
  intros Hwf. rewrite value_fold_log by exact Hwf.
  now rewrite prepared_cache.
Qed.

Lemma valuation_requests_witness :
  snd (Portfolio.calculatePortfolioValue demo_node steady_oracle
         (tracker_of ["0xa"]) [] [])
  = ["ethereum"; "tether"].
Proof.
  refine (eq_trans (valuation_requests demo_node steady_oracle
                      (tracker_of ["0xa"]) [] [] _) _).
  - vm_compute. repeat constructor; simpl; intuition discriminate.
  - vm_compute. reflexivity.
Defined.

(** X15. A valuation of a stored aggregate whose symbols all have a usable
    price in the cache asks neither the ledger nor the oracle and leaves the
    tracker as it is; its total and rows depend on no reply, so that running
    it again, with any node and oracle, gives the same valuation. *)
Theorem valuation_from_cache node oracle t log olog :
  Obj.keys (Portfolio.aggregatedBalances (Portfolio.portfolioData t)) <> [] ->
  (forall s,
      In s (Obj.keys (Portfolio.aggregatedBalances (Portfolio.portfolioData t))) ->
      Portfolio.cache_hit (Portfolio.priceCache t) s <> None) ->
  let r := Portfolio.calculatePortfolioValue node oracle t log olog in
  snd (fst (fst r)) = t /\ snd (fst r) = log /\ snd r = olog
  /\ (forall node' oracle' log' olog',
      fst (fst (fst (Portfolio.calculatePortfolioValue node' oracle' t log' olog')))
      = fst (fst (fst r))).
Proof.
  intros Hk Hall. cbv zeta.
  assert (Hp : forall n l, prepared n t l = (t, l)).
  { intros n l. unfold prepared.
    destruct (Obj.keys (Portfolio.aggregatedBalances (Portfolio.portfolioData t)));
      [congruence | reflexivity]. }
  rewrite calculatePortfolioValue_eq. cbv zeta. rewrite !Hp. cbn [fst snd].
  destruct (value_fold_warm oracle oracle
              (Obj.entries (Portfolio.aggregatedBalances (Portfolio.portfolioData t)))
              JS.num_zero [] (Portfolio.priceCache t) olog Hall) as (_ & Hc & Hl).
  split; [|split; [reflexivity|split; [exact Hl|]]].
  - eapply eq_trans; [exact (f_equal (Portfolio.set_priceCache t) Hc)|].
    destruct t; reflexivity.
  - intros node' oracle' log' olog'.
    rewrite calculatePortfolioValue_eq. cbv zeta. rewrite !Hp. cbn [fst snd].
    rewrite (value_fold_warm_rows oracle' oracle
               (Obj.entries (Portfolio.aggregatedBalances (Portfolio.portfolioData t)))
               JS.num_zero [] (Portfolio.priceCache t) olog' olog Hall).
    reflexivity.
Qed.

Lemma warm_tracker_stored :
  Obj.keys (Portfolio.aggregatedBalances (Portfolio.portfolioData warm_tracker))
  = ["ETH"]
  /\ Portfolio.cache_hit (Portfolio.priceCache warm_tracker) "ETH"
     = Some (JS.parseFloat "2000.5").
Proof. vm_compute. split; reflexivity. Qed.

Lemma valuation_from_cache_witness :
  let r := Portfolio.calculatePortfolioValue demo_node dead_oracle
             warm_tracker [] [] in
  snd (fst (fst r)) = warm_tracker /\ snd (fst r) = [] /\ snd r = []
  /\ (forall node' oracle' log' olog',
      fst (fst (fst (Portfolio.calculatePortfolioValue node' oracle'
                       warm_tracker log' olog')))
      = fst (fst (fst r))).
Proof.
  apply (valuation_from_cache demo_node dead_oracle warm_tracker [] []).
  - rewrite (proj1 warm_tracker_stored). discriminate.
  - intros s Hs. rewrite (proj1 warm_tracker_stored) in Hs.
    destruct Hs as [<-|[]]. rewrite (proj2 warm_tracker_stored). discriminate.
Defined.

(** X16. When every price lookup fails and no price is cached, a valuation
    still returns: the total is 0 and every row shows a price of 0.00, a
    value of 0.00 and the percentage NaN, whatever the (finite) balances. *)
Theorem valuation_without_prices node oracle t log olog :
  let r := Portfolio.calculatePortfolioValue node oracle t log olog in
  let pv := fst (fst (fst r)) in
  let agg := Portfolio.aggregatedBalances
               (Portfolio.portfolioData (snd (fst (fst r)))) in
  (forall n id, failed_lookup (oracle n id) = true) ->
  (forall s, In s (Obj.keys agg) ->
             Portfolio.cache_hit (Portfolio.priceCache t) s = None) ->
  Forall (fun tb => is_finite (JS.parseFloat (Portfolio.balance tb)))
    (Obj.values agg) ->
  is_zero (Portfolio.totalValue pv)
  /\ Forall (fun row => Portfolio.price row = "0.00"
                        /\ Portfolio.value row = "0.00"
                        /\ Portfolio.percentage row = "NaN")
       (Portfolio.valueBreakdown pv).
Proof.
  cbv zeta. rewrite calculatePortfolioValue_eq. cbv zeta.
  cbn [fst snd Portfolio.set_priceCache Portfolio.portfolioData
       Portfolio.totalValue Portfolio.valueBreakdown].
  intros Hdead Hm Hfin.
  destruct (value_fold_dead oracle
              (Obj.entries (Portfolio.aggregatedBalances
                 (Portfolio.portfolioData (fst (prepared node t log)))))
              Hdead JS.num_zero []
              (Portfolio.priceCache (fst (prepared node t log))) olog)
    as [Hz Hrows].
  - intros s Hs. rewrite prepared_cache. now apply Hm.
  - exact Hfin.
  - exact I.
  - constructor.
  - split; [exact Hz|]. apply sort_rows_Forall. apply Forall_forall.
    intros row Hin. apply in_map_iff in Hin. destruct Hin as [item [<- Hi]].
    rewrite Forall_forall in Hrows.
    destruct (dead_row_percentage _ item Hz (Hrows item Hi)) as [[Hp Hv] Hn].
    auto.
Qed.

Lemma valuation_without_prices_witness :
  let r := Portfolio.calculatePortfolioValue demo_node dead_oracle
             (tracker_of ["0xa"; "0xe"]) [] [] in
  is_zero (Portfolio.totalValue (fst (fst (fst r))))
  /\ Forall (fun row => Portfolio.price row = "0.00"
                        /\ Portfolio.value row = "0.00"
                        /\ Portfolio.percentage row = "NaN")
       (Portfolio.valueBreakdown (fst (fst (fst r)))).
Proof.
  apply (valuation_without_prices demo_node dead_oracle
           (tracker_of ["0xa"; "0xe"]) [] []).
  - intros n id. reflexivity.
  - intros s _. reflexivity.
  - apply Forall_forall. intros tb Hin. vm_compute in Hin.
    repeat (destruct Hin as [<-|Hin]; [vm_compute; exact I|]). destruct Hin.
Defined.

(** X17. The TypeScript and the JavaScript [getTokenPrice] return the same
    price, cache and requests unless a lookup without a cache hit gets a
    response with an error status whose body can be read. There the
    TypeScript version returns 0 and stores nothing, and the JavaScript
    version, which does not look at the status, returns the price of the
    body and stores it, so that its later lookups reuse that price. *)
Theorem getTokenPrice_versions oracle cache olog sym :
  let reply := oracle (List.length olog) (Portfolio.getCoingeckoId sym) in
  ((Portfolio.cache_hit cache sym <> None
    \/ forall b, reply <> Portfolio.Response false (Portfolio.Json b)) ->
   Portfolio.getTokenPrice_js oracle cache olog sym
   = Portfolio.getTokenPrice oracle cache olog sym)
  /\ (forall p,
      Portfolio.cache_hit cache sym = None ->
      reply = Portfolio.Response false (Portfolio.Json (Some p)) ->
      JS.num_truthy p = true ->
      Portfolio.getTokenPrice oracle cache olog sym
      = (JS.num_zero, cache, (olog ++ [Portfolio.getCoingeckoId sym])%list)
      /\ Portfolio.getTokenPrice_js oracle cache olog sym
         = (p, Obj.set sym p cache,
            (olog ++ [Portfolio.getCoingeckoId sym])%list)
      /\ Portfolio.cache_hit (Obj.set sym p cache) sym = Some p).
Proof.
  cbv zeta. split.
  - intros H.
    destruct (Portfolio.cache_hit cache sym) as [p|] eqn:E.
    + destruct (getTokenPrice_hit oracle cache olog sym p E) as [-> ->].
      reflexivity.
    + destruct H as [H|H]; [congruence|].
      rewrite (getTokenPrice_miss oracle cache olog sym E),
        (getTokenPrice_js_miss oracle cache olog sym E). cbv zeta.
      destruct (oracle _ _) as [|[|] [|usd]]; try reflexivity.
      exfalso. exact (H usd eq_refl).
  - intros p E Hr Hp.
    rewrite (getTokenPrice_miss oracle cache olog sym E),
      (getTokenPrice_js_miss oracle cache olog sym E). cbv zeta.
    rewrite Hr. rewrite (usd_or_0_truthy p Hp).
    split; [reflexivity|]. split; [reflexivity|].
    apply cache_hit_truthy; [apply get_set_eq | exact Hp].
Qed.

Lemma getTokenPrice_versions_witness :
  Portfolio.getTokenPrice_js steady_oracle Obj.empty [] "ETH"
  = Portfolio.getTokenPrice steady_oracle Obj.empty [] "ETH"
  /\ fst (fst (Portfolio.getTokenPrice error_oracle Obj.empty [] "ETH"))
     = JS.num_zero
  /\ fst (fst (Portfolio.getTokenPrice_js error_oracle Obj.empty [] "ETH"))
     = JS.parseFloat "2000.5".
Proof.
  split.
  - apply (proj1 (getTokenPrice_versions steady_oracle Obj.empty [] "ETH")).
    right. intros b. discriminate.
  - destruct (proj2 (getTokenPrice_versions error_oracle Obj.empty [] "ETH")
                (JS.parseFloat "2000.5") eq_refl eq_refl)
      as (Hts & Hjs & _).
    + vm_compute. reflexivity.
    + rewrite Hts, Hjs. split; reflexivity.
Defined.
